(** * Lavash Bakery API: the balance and order-status protocol

    A shallow embedding of the Express + MySQL API server and of the
    schema it runs on, and the properties of its ledger: the balance
    invariant, auto-settlement of pending orders, atomicity of the two
    transactional routes, the deletion guard and the validation checks.

    Modelling conventions.
    - Money columns are DECIMAL(12,2): an amount is a number of hundredths,
      held in [Z] (so 150.00 is 15000).  Column widths (VARCHAR(255), twelve
      digits, INT) are not modelled.
    - A JSON field that is absent, undefined or null is [None]; fields
      have the types the client declares (CreateOrderRow and the payment
      body of the API service layer), with numeric ids.
    - A table is the list of its rows in insertion order.
    - Requests are served one at a time.  A store call may throw for a reason
      outside the data (connection lost, timeout): [fault = Some k] makes the
      k-th awaited store call of the request throw (counted from 0), [None]
      none of them.  Each route has a single try/catch, so one index
      describes every possible run.  Acquiring and releasing the
      connection, and the rollback itself, are taken to succeed.
    - The routes that only read (lists, customer detail, dashboard,
      reports) leave the store as it is and are left out. *)

From Stdlib Require Import ZArith List String Ascii Bool Lia.
From Stdlib Require Import Permutation Sorted DecimalString.
Import ListNotations.
Open Scope Z_scope.

(* ================================================================= *)
(** ** Rows and tables (the MySQL schema) *)

Inductive OrderStatus : Type := pending | paid.

Definition OrderStatus_eqb (a b : OrderStatus) : bool :=
  match a, b with
  | pending, pending | paid, paid => true
  | _, _ => false
  end.

Record Customer : Type := mkCustomer {
  c_id : Z;
  c_name : string;
  c_phone : option string;
  c_current_balance : Z;
  c_created_at : Z
}.

Record Order : Type := mkOrder {
  o_id : Z;
  o_customer_id : Z;
  o_quantity : Z;
  o_unit_price : Z;
  o_total_price : Z;
  o_status : OrderStatus;
  o_order_date : Z;
  o_order_group_id : option string
}.

Record Payment : Type := mkPayment {
  p_id : Z;
  p_customer_id : Z;
  p_amount : Z;
  p_payment_date : Z;
  p_note : option string
}.

(** The database: the three tables and their AUTO_INCREMENT counters. *)
Record DB : Type := mkDB {
  customers : list Customer;
  orders : list Order;
  payments : list Payment;
  next_customer_id : Z;
  next_order_id : Z;
  next_payment_id : Z
}.

(** A freshly created schema: empty tables, counters at 1. *)
Definition empty_db : DB := mkDB [] [] [] 1 1 1.

Definition Tables : Type := (list Customer * list Order * list Payment)%type.

Definition tables (d : DB) : Tables := (customers d, orders d, payments d).

Definition restore (t : Tables) (d : DB) : DB :=
  let '(cs, os, ps) := t in
  mkDB cs os ps (next_customer_id d) (next_order_id d) (next_payment_id d).

(* ================================================================= *)
(** ** JavaScript helpers *)

(** [!x] for a numeric field: missing, null and 0 are falsy. *)
Definition falsy_num (x : option Z) : bool :=
  match x with
  | None => true
  | Some v => v =? 0
  end.

(** [!x] for a string field: missing, null and the empty string are falsy. *)
Definition falsy_str (x : option string) : bool :=
  match x with
  | None => true
  | Some s => (String.length s =? 0)%nat
  end.

(** [x || null] on a string field. *)
Definition or_null (x : option string) : option string :=
  if falsy_str x then None else x.

(** White space removed by [String.prototype.trim], on the ASCII range:
    tab, line feed, vertical tab, form feed, carriage return, space. *)
Definition is_space (a : ascii) : bool :=
  let n := nat_of_ascii a in
  ((9 <=? n) && (n <=? 13) || (n =? 32))%nat.

Fixpoint trim_start (s : string) : string :=
  match s with
  | EmptyString => EmptyString
  | String a r => if is_space a then trim_start r else s
  end.

Fixpoint rev_string (s acc : string) : string :=
  match s with
  | EmptyString => acc
  | String a r => rev_string r (String a acc)
  end.

Definition trim_end (s : string) : string :=
  rev_string (trim_start (rev_string s EmptyString)) EmptyString.

Definition trim (s : string) : string := trim_end (trim_start s).

(** [!name || name.trim() === ''] *)
Definition name_missing (name : option string) : bool :=
  match name with
  | None => true
  | Some s => (String.length s =? 0)%nat || (String.length (trim s) =? 0)%nat
  end.

(* ================================================================= *)
(** ** SQL statements

    Each statement is a function from the database to an error or a
    result with the new database.  A statement that fails changes
    nothing. *)

Inductive SqlError : Type :=
| ER_NO_REFERENCED_ROW   (* insert: the customer referred to is absent *)
| ER_ROW_IS_REFERENCED   (* delete: an order or payment refers to the row *)
| ER_BAD_NULL            (* NULL into a NOT NULL column *)
| ER_CONNECTION.         (* the call threw for an external reason *)

Definition Stmt (A : Type) : Type := DB -> SqlError + (A * DB).

(** [WHERE id = ?]: a NULL parameter matches no row. *)
Definition id_is (p : option Z) (i : Z) : bool :=
  match p with
  | Some v => i =? v
  | None => false
  end.

Definition has_customer (cid : Z) (d : DB) : bool :=
  existsb (fun c => c_id c =? cid) (customers d).

(** SELECT * FROM customers WHERE id = ? *)
Definition select_customer (id : option Z) : Stmt (list Customer) :=
  fun d => inr (filter (fun c => id_is id (c_id c)) (customers d), d).

(** INSERT INTO customers (name, phone) VALUES (?, ?)
    [current_balance] takes its default 0.00, [created_at] the current
    time; the result is the insertId. *)
Definition insert_customer (now : Z) (name : option string)
    (phone : option string) : Stmt Z :=
  fun d =>
    match name with
    | None => inl ER_BAD_NULL
    | Some n =>
        let id := next_customer_id d in
        inr (id, mkDB (customers d ++ [mkCustomer id n phone 0 now])
                      (orders d) (payments d)
                      (id + 1) (next_order_id d) (next_payment_id d))
    end.

Definition set_name_phone (n : string) (ph : option string) (c : Customer)
    : Customer :=
  mkCustomer (c_id c) n ph (c_current_balance c) (c_created_at c).

(** UPDATE customers SET name = ?, phone = ? WHERE id = ?
    The result is affectedRows, the number of rows matched. *)
Definition update_customer (name : option string) (phone : option string)
    (id : option Z) : Stmt nat :=
  fun d =>
    let hit := fun c => id_is id (c_id c) in
    match name with
    | None =>
        if existsb hit (customers d) then inl ER_BAD_NULL else inr (0%nat, d)
    | Some n =>
        inr (List.length (filter hit (customers d)),
             mkDB (map (fun c => if hit c then set_name_phone n phone c else c)
                       (customers d))
                  (orders d) (payments d)
                  (next_customer_id d) (next_order_id d) (next_payment_id d))
    end.

(** SELECT COUNT( * ) AS cnt FROM orders WHERE customer_id = ? *)
Definition count_orders (id : option Z) : Stmt nat :=
  fun d =>
    inr (List.length (filter (fun o => id_is id (o_customer_id o)) (orders d)),
         d).

(** SELECT COUNT( * ) AS cnt FROM payments WHERE customer_id = ? *)
Definition count_payments (id : option Z) : Stmt nat :=
  fun d =>
    inr (List.length
           (filter (fun p => id_is id (p_customer_id p)) (payments d)),
         d).

(** DELETE FROM customers WHERE id = ?
    ON DELETE RESTRICT: the statement fails when an order or a payment
    still refers to a row it would delete.  The result is affectedRows. *)
Definition delete_customer (id : option Z) : Stmt nat :=
  fun d =>
    let hit := fun c => id_is id (c_id c) in
    if existsb hit (customers d)
       && (existsb (fun o => id_is id (o_customer_id o)) (orders d)
           || existsb (fun p => id_is id (p_customer_id p)) (payments d))
    then inl ER_ROW_IS_REFERENCED
    else
      inr (List.length (filter hit (customers d)),
           mkDB (filter (fun c => negb (hit c)) (customers d))
                (orders d) (payments d)
                (next_customer_id d) (next_order_id d) (next_payment_id d)).

(** INSERT INTO orders (customer_id, quantity, unit_price, total_price,
    order_group_id) VALUES (?, ?, ?, ?, ?)
    [status] takes its default 'pending', [order_date] the current time. *)
Definition insert_order (now : Z) (cid qty unit total : option Z)
    (grp : option string) : Stmt Z :=
  fun d =>
    match cid, qty, unit, total with
    | Some c, Some q, Some u, Some t =>
        if has_customer c d then
          let id := next_order_id d in
          inr (id, mkDB (customers d)
                        (orders d ++ [mkOrder id c q u t pending now grp])
                        (payments d)
                        (next_customer_id d) (id + 1) (next_payment_id d))
        else inl ER_NO_REFERENCED_ROW
    | _, _, _, _ => inl ER_BAD_NULL
    end.

Definition set_balance (b : Z) (c : Customer) : Customer :=
  mkCustomer (c_id c) (c_name c) (c_phone c) b (c_created_at c).

(** UPDATE customers SET current_balance = current_balance (op) ?
    WHERE id = ?      with (op) one of + and -. *)
Definition update_balance (op : Z -> Z -> Z) (amount : option Z)
    (cid : option Z) : Stmt unit :=
  fun d =>
    let hit := fun c => id_is cid (c_id c) in
    match amount with
    | None =>
        if existsb hit (customers d) then inl ER_BAD_NULL else inr (tt, d)
    | Some a =>
        inr (tt,
             mkDB (map (fun c =>
                          if hit c
                          then set_balance (op (c_current_balance c) a) c
                          else c)
                       (customers d))
                  (orders d) (payments d)
                  (next_customer_id d) (next_order_id d) (next_payment_id d))
    end.

(** INSERT INTO payments (customer_id, amount, note) VALUES (?, ?, ?) *)
Definition insert_payment (now : Z) (cid amount : option Z)
    (note : option string) : Stmt Z :=
  fun d =>
    match cid, amount with
    | Some c, Some a =>
        if has_customer c d then
          let id := next_payment_id d in
          inr (id, mkDB (customers d) (orders d)
                        (payments d ++ [mkPayment id c a now note])
                        (next_customer_id d) (next_order_id d) (id + 1))
        else inl ER_NO_REFERENCED_ROW
    | _, _ => inl ER_BAD_NULL
    end.

(** SELECT current_balance FROM customers WHERE id = ? *)
Definition select_balance (cid : option Z) : Stmt (list Z) :=
  fun d =>
    inr (map c_current_balance
             (filter (fun c => id_is cid (c_id c)) (customers d)),
         d).

Definition set_status (s : OrderStatus) (o : Order) : Order :=
  mkOrder (o_id o) (o_customer_id o) (o_quantity o) (o_unit_price o)
          (o_total_price o) s (o_order_date o) (o_order_group_id o).

(** The row-level effect of
    UPDATE orders SET status = 'paid'
    WHERE customer_id = ? AND status = 'pending' *)
Definition settle (cid : option Z) (o : Order) : Order :=
  if id_is cid (o_customer_id o) && OrderStatus_eqb (o_status o) pending
  then set_status paid o
  else o.

Definition settle_orders (cid : option Z) : Stmt unit :=
  fun d =>
    inr (tt,
         mkDB (customers d) (map (settle cid) (orders d)) (payments d)
              (next_customer_id d) (next_order_id d) (next_payment_id d)).

(** SELECT * FROM payments WHERE id = ? *)
Definition select_payment (id : Z) : Stmt (list Payment) :=
  fun d => inr (filter (fun p => p_id p =? id) (payments d), d).

(* ================================================================= *)
(** ** Store calls: a state and exception monad

    A connection carries the database, the snapshot taken when a
    transaction began, and the count of store calls made so far. *)

Record Conn : Type := mkConn {
  fault : option nat;
  ticks : nat;
  store : DB;
  saved : option Tables
}.

Inductive Result (A : Type) : Type :=
| Ok (a : A)
| Throw (e : SqlError).

Arguments Ok {A} a.
Arguments Throw {A} e.

Definition M (A : Type) : Type := Conn -> Result A * Conn.

Definition ret {A : Type} (a : A) : M A := fun s => (Ok a, s).

Definition bind {A B : Type} (m : M A) (k : A -> M B) : M B :=
  fun s =>
    match m s with
    | (Ok a, s') => k a s'
    | (Throw e, s') => (Throw e, s')
    end.

Declare Scope tx_scope.
Delimit Scope tx_scope with tx.
Notation "x <- m ;; k" := (bind m (fun x => k))
  (at level 61, m at next level, right associativity) : tx_scope.
Notation "m ;; k" := (bind m (fun _ => k))
  (at level 61, right associativity) : tx_scope.

Definition connect (f : option nat) (d : DB) : Conn := mkConn f 0 d None.

Definition throws (s : Conn) : bool :=
  match fault s with
  | Some k => Nat.eqb k (ticks s)
  | None => false
  end.

Definition tick (d : DB) (sv : option Tables) (s : Conn) : Conn :=
  mkConn (fault s) (S (ticks s)) d sv.

(** [await conn.query(...)] and [await pool.query(...)] *)
Definition query {A : Type} (q : Stmt A) : M A :=
  fun s =>
    if throws s then (Throw ER_CONNECTION, tick (store s) (saved s) s)
    else
      match q (store s) with
      | inl e => (Throw e, tick (store s) (saved s) s)
      | inr (a, d) => (Ok a, tick d (saved s) s)
      end.

(** [await conn.beginTransaction()] *)
Definition beginTransaction : M unit :=
  fun s =>
    if throws s then (Throw ER_CONNECTION, tick (store s) (saved s) s)
    else (Ok tt, tick (store s) (Some (tables (store s))) s).

(** [await conn.commit()] *)
Definition commit : M unit :=
  fun s =>
    if throws s then (Throw ER_CONNECTION, tick (store s) (saved s) s)
    else (Ok tt, tick (store s) None s).

(** [await conn.rollback()]: the tables go back to the snapshot of the
    open transaction; with no transaction open nothing happens.  The
    AUTO_INCREMENT counters are not transactional. *)
Definition rollback (s : Conn) : Conn :=
  match saved s with
  | Some t => mkConn (fault s) (ticks s) (restore t (store s)) None
  | None => s
  end.

(* ================================================================= *)
(** ** Requests and responses *)

Inductive Body : Type :=
| JCustomer (row : option Customer)          (* rows[0] *)
| JPayment (row : option Payment)            (* paymentRows[0] *)
| JCreated (count : nat) (ids : list Z)      (* { message, ids } *)
| JMessage (m : string)                      (* { message } *)
| JError (m : string).                       (* { error } *)

Record Response : Type := mkResponse {
  status : nat;
  body : Body
}.

(** err.message, shortened to the error code *)
Definition message (e : SqlError) : string :=
  match e with
  | ER_NO_REFERENCED_ROW => "ER_NO_REFERENCED_ROW"
  | ER_ROW_IS_REFERENCED => "ER_ROW_IS_REFERENCED"
  | ER_BAD_NULL => "ER_BAD_NULL_ERROR"
  | ER_CONNECTION => "PROTOCOL_CONNECTION_LOST"
  end.

Definition server_error (e : SqlError) : Response :=
  mkResponse 500 (JError (message e)).

(** { name, phone } *)
Record CustomerBody : Type := mkCustomerBody {
  name : option string;
  phone : option string
}.

(** { customer_id, quantity, unit_price, total_price, order_group_id } *)
Record CreateOrderRow : Type := mkCreateOrderRow {
  customer_id : option Z;
  quantity : option Z;
  unit_price : option Z;
  total_price : option Z;
  order_group_id : option string
}.

(** The body of POST /orders: an array of rows, or anything else. *)
Inductive OrdersBody : Type :=
| NotAnArray
| ArrayOf (rows : list CreateOrderRow).

(** { customer_id, amount, note } *)
Record PaymentBody : Type := mkPaymentBody {
  pay_customer_id : option Z;
  amount : option Z;
  note : option string
}.

Definition name_required : string := "Müşteri adı gereklidir.".
Definition customer_not_found : string := "Müşteri bulunamadı.".
Definition has_orders : string :=
  "Bu müşterinin siparişleri var. Önce siparişleri silinmelidir.".
Definition has_payments : string :=
  "Bu müşterinin ödemeleri var. Önce ödemeler silinmelidir.".
Definition customer_deleted : string := "Müşteri silindi.".
Definition orders_required : string := "Sipariş dizisi gereklidir.".
Definition payment_fields_required : string :=
  "customer_id ve amount gereklidir.".

(* ================================================================= *)
(** ** The routes of the API server *)

Section Routes.

Local Open Scope tx_scope.

(** POST /customers *)
Definition post_customers (f : option nat) (now : Z) (b : CustomerBody)
    (d : DB) : Response * DB :=
  if name_missing (name b) then (mkResponse 400 (JError name_required), d)
  else
    match (insertId <- query (insert_customer now (option_map trim (name b))
                                              (or_null (phone b))) ;;
           rows <- query (select_customer (Some insertId)) ;;
           ret (hd_error rows)) (connect f d) with
    | (Ok row, s) => (mkResponse 201 (JCustomer row), store s)
    | (Throw e, s) => (server_error e, store s)
    end.

(** PUT /customers/:id *)
Definition put_customers (f : option nat) (id : Z) (b : CustomerBody)
    (d : DB) : Response * DB :=
  if name_missing (name b) then (mkResponse 400 (JError name_required), d)
  else
    match (affectedRows <- query (update_customer (option_map trim (name b))
                                                  (or_null (phone b))
                                                  (Some id)) ;;
           if (affectedRows =? 0)%nat
           then ret (mkResponse 404 (JError customer_not_found))
           else
             rows <- query (select_customer (Some id)) ;;
             ret (mkResponse 200 (JCustomer (hd_error rows)))) (connect f d)
    with
    | (Ok r, s) => (r, store s)
    | (Throw e, s) => (server_error e, store s)
    end.

(** DELETE /customers/:id *)
Definition delete_customers (f : option nat) (id : Z) (d : DB)
    : Response * DB :=
  match (cnt <- query (count_orders (Some id)) ;;
         if (0 <? cnt)%nat
         then ret (mkResponse 400 (JError has_orders))
         else
           cnt <- query (count_payments (Some id)) ;;
           if (0 <? cnt)%nat
           then ret (mkResponse 400 (JError has_payments))
           else
             affectedRows <- query (delete_customer (Some id)) ;;
             if (affectedRows =? 0)%nat
             then ret (mkResponse 404 (JError customer_not_found))
             else ret (mkResponse 200 (JMessage customer_deleted)))
        (connect f d)
  with
  | (Ok r, s) => (r, store s)
  | (Throw e, s) => (server_error e, store s)
  end.

(** The loop of POST /orders: insert the row, push its insertId, add its
    total_price to the customer's balance. *)
Fixpoint insert_rows (now : Z) (rows : list CreateOrderRow)
    (insertedIds : list Z) : M (list Z) :=
  match rows with
  | [] => ret insertedIds
  | order :: rest =>
      insertId <- query (insert_order now (customer_id order) (quantity order)
                                      (unit_price order) (total_price order)
                                      (or_null (order_group_id order))) ;;
      query (update_balance Z.add (total_price order) (customer_id order)) ;;
      insert_rows now rest (insertedIds ++ [insertId])
  end.

(** POST /orders *)
Definition post_orders (f : option nat) (now : Z) (b : OrdersBody) (d : DB)
    : Response * DB :=
  match b with
  | NotAnArray => (mkResponse 400 (JError orders_required), d)
  | ArrayOf [] => (mkResponse 400 (JError orders_required), d)
  | ArrayOf rows =>
      match (beginTransaction ;;
             insertedIds <- insert_rows now rows [] ;;
             commit ;;
             ret insertedIds) (connect f d) with
      | (Ok ids, s) =>
          (mkResponse 201 (JCreated (List.length ids) ids), store s)
      | (Throw e, s) => (server_error e, store (rollback s))
      end
  end.

(** The test of step 3 of POST /payments:
    [customerRows.length > 0 && parseFloat(customerRows[0].current_balance) <= 0].
    The column arrives as a decimal string; [parseFloat] keeps its sign. *)
Definition balance_cleared (customerRows : list Z) : bool :=
  (0 <? List.length customerRows)%nat
  && match hd_error customerRows with
     | Some current_balance => current_balance <=? 0
     | None => false
     end.

Definition auto_settle (cid : option Z) (customerRows : list Z) : M unit :=
  if balance_cleared customerRows then query (settle_orders cid) else ret tt.

(** POST /payments *)
Definition post_payments (f : option nat) (now : Z) (b : PaymentBody)
    (d : DB) : Response * DB :=
  if falsy_num (pay_customer_id b) || falsy_num (amount b)
  then (mkResponse 400 (JError payment_fields_required), d)
  else
    match (beginTransaction ;;
           insertId <- query (insert_payment now (pay_customer_id b)
                                             (amount b) (or_null (note b))) ;;
           query (update_balance Z.sub (amount b) (pay_customer_id b)) ;;
           customerRows <- query (select_balance (pay_customer_id b)) ;;
           auto_settle (pay_customer_id b) customerRows ;;
           commit ;;
           paymentRows <- query (select_payment insertId) ;;
           ret (hd_error paymentRows)) (connect f d) with
    | (Ok row, s) => (mkResponse 201 (JPayment row), store s)
    | (Throw e, s) => (server_error e, store (rollback s))
    end.

End Routes.

(* ================================================================= *)
(** ** Runs of the server *)

Inductive Request : Type :=
| PostCustomers (now : Z) (b : CustomerBody)
| PutCustomers (id : Z) (b : CustomerBody)
| DeleteCustomers (id : Z)
| PostOrders (now : Z) (b : OrdersBody)
| PostPayments (now : Z) (b : PaymentBody).

(** One request, with the store call that throws while it is served. *)
Definition handle (fr : option nat * Request) (d : DB) : Response * DB :=
  let (f, r) := fr in
  match r with
  | PostCustomers now b => post_customers f now b d
  | PutCustomers id b => put_customers f id b d
  | DeleteCustomers id => delete_customers f id d
  | PostOrders now b => post_orders f now b d
  | PostPayments now b => post_payments f now b d
  end.

(** The database after a sequence of requests. *)
Definition run (rs : list (option nat * Request)) (d : DB) : DB :=
  fold_left (fun d fr => snd (handle fr d)) rs d.

(** The databases the server can be in, started on the empty schema. *)
Definition reachable (d : DB) : Prop :=
  exists rs, d = run rs empty_db.

(* ================================================================= *)
(** ** The ledger of a customer *)

Definition sumZ (l : list Z) : Z := fold_right Z.add 0 l.

Definition orders_of (cid : Z) (os : list Order) : list Order :=
  filter (fun o => o_customer_id o =? cid) os.

Definition payments_of (cid : Z) (ps : list Payment) : list Payment :=
  filter (fun p => p_customer_id p =? cid) ps.

(** sum(order.total_price) over the orders of customer [cid] *)
Definition order_total (cid : Z) (os : list Order) : Z :=
  sumZ (map o_total_price (orders_of cid os)).

(** sum(payment.amount) over the payments of customer [cid] *)
Definition payment_total (cid : Z) (ps : list Payment) : Z :=
  sumZ (map p_amount (payments_of cid ps)).

(** current_balance == sum(order.total_price) - sum(payment.amount) *)
Definition balanced (d : DB) (c : Customer) : Prop :=
  c_current_balance c
  = order_total (c_id c) (orders d) - payment_total (c_id c) (payments d).

(** The balances a [SELECT current_balance ... WHERE id = cid] returns. *)
Definition balance_rows (cid : Z) (d : DB) : list Z :=
  map c_current_balance (filter (fun c => c_id c =? cid) (customers d)).

(** What the relational store keeps true between requests: ids are
    unique and come from the counters, every order and payment has its
    customer, and every balance is the customer's ledger total. *)
Record consistent (d : DB) : Prop := mkConsistent {
  counter_started : 0 < next_customer_id d;
  ids_unique : NoDup (map c_id (customers d));
  ids_issued :
    Forall (fun c => 0 < c_id c < next_customer_id d) (customers d);
  orders_owned :
    Forall (fun o => has_customer (o_customer_id o) d = true) (orders d);
  payments_owned :
    Forall (fun p => has_customer (p_customer_id p) d = true) (payments d);
  payments_issued :
    Forall (fun p => p_id p < next_payment_id d) (payments d);
  balances : Forall (balanced d) (customers d)
}.

(** A row of a batch that cannot be inserted: its customer_id is missing
    or names no customer. *)
Definition unknown_customer (row : CreateOrderRow) (d : DB) : bool :=
  match customer_id row with
  | Some c => negb (has_customer c d)
  | None => true
  end.

(** Requests of the spec's scenarios. *)
Definition ayse : CustomerBody := mkCustomerBody (Some "Ayse"%string) None.

Definition order_row (cid qty unit : Z) : CreateOrderRow :=
  mkCreateOrderRow (Some cid) (Some qty) (Some unit) (Some (qty * unit)) None.

Definition pay (cid a : Z) : PaymentBody :=
  mkPaymentBody (Some cid) (Some a) None.

(** The store of the settlement scenario: one customer, two pending
    orders of 100.00 and 50.00. *)
Definition two_orders : DB :=
  run [(None, PostCustomers 0 ayse);
       (None, PostOrders 1 (ArrayOf [order_row 1 10 1000; order_row 1 5 1000]))]
      empty_db.

(** A store whose only customer has a phone number. *)
Definition with_phone : DB :=
  run [(None, PostCustomers 0
                (mkCustomerBody (Some "Ayse"%string) (Some "555"%string)))]
      empty_db.

(* ================================================================= *)
(** ** What a batch of orders asks for *)

(** The four NOT NULL columns of a row are present. *)
Definition row_complete (row : CreateOrderRow) : bool :=
  match customer_id row, quantity row, unit_price row, total_price row with
  | Some _, Some _, Some _, Some _ => true
  | _, _, _, _ => false
  end.

(** The row can be inserted: complete, and its customer exists. *)
Definition insertable (row : CreateOrderRow) (d : DB) : bool :=
  row_complete row && negb (unknown_customer row d).

(** The order row that the INSERT of POST /orders stores for a batch row. *)
Definition stored_as (now : Z) (row : CreateOrderRow) (o : Order) : Prop :=
  customer_id row = Some (o_customer_id o)
  /\ quantity row = Some (o_quantity o)
  /\ unit_price row = Some (o_unit_price o)
  /\ total_price row = Some (o_total_price o)
  /\ o_status o = pending
  /\ o_order_date o = now
  /\ o_order_group_id o = or_null (order_group_id row).

(** The total_price the rows of a batch carry for customer [cid]. *)
Definition batch_total (cid : Z) (rows : list CreateOrderRow) : Z :=
  sumZ (map (fun row => match total_price row with
                        | Some t => t
                        | None => 0
                        end)
            (filter (fun row => id_is (customer_id row) cid) rows)).

(** [k] consecutive AUTO_INCREMENT values from [n]. *)
Definition ids_from (n : Z) (k : nat) : list Z :=
  map (fun i => n + Z.of_nat i) (seq 0 k).

(** The store after [UPDATE customers SET name = n, phone = ph WHERE id]. *)
Definition renamed (id : Z) (n : string) (ph : option string) (d : DB) : DB :=
  mkDB (map (fun c => if c_id c =? id then set_name_phone n ph c else c)
            (customers d))
       (orders d) (payments d)
       (next_customer_id d) (next_order_id d) (next_payment_id d).


(* ================================================================= *)
(** ** GET /customers/:id, the customer detail *)

(** ORDER BY key DESC.  MySQL leaves the order of rows with equal keys
    open; the sort below keeps them in table order, and nothing proved
    about it depends on that choice. *)
Fixpoint insert_desc {A : Type} (key : A -> Z) (x : A) (l : list A)
    : list A :=
  match l with
  | [] => [x]
  | y :: r => if key y <=? key x then x :: l else y :: insert_desc key x r
  end.

Definition order_by_desc {A : Type} (key : A -> Z) (l : list A) : list A :=
  fold_right (insert_desc key) [] l.

(** SELECT * FROM orders WHERE customer_id = ? ORDER BY order_date DESC *)
Definition select_orders_of (id : option Z) : Stmt (list Order) :=
  fun d =>
    inr (order_by_desc o_order_date
           (filter (fun o => id_is id (o_customer_id o)) (orders d)),
         d).

(** SELECT * FROM payments WHERE customer_id = ? ORDER BY payment_date DESC *)
Definition select_payments_of (id : option Z) : Stmt (list Payment) :=
  fun d =>
    inr (order_by_desc p_payment_date
           (filter (fun p => id_is id (p_customer_id p)) (payments d)),
         d).

(** { customer, orders, payments } or { error } *)
Inductive DetailBody : Type :=
| JDetail (customer : Customer) (orders : list Order)
          (payments : list Payment)
| JDetailError (m : string).

Record DetailResponse : Type := mkDetailResponse {
  detail_status : nat;
  detail_body : DetailBody
}.

Section DetailRoute.

Local Open Scope tx_scope.

(** GET /customers/:id *)
Definition get_customer (f : option nat) (id : Z) (d : DB)
    : DetailResponse * DB :=
  match (customerRows <- query (select_customer (Some id)) ;;
         match customerRows with
         | [] => ret (mkDetailResponse 404 (JDetailError customer_not_found))
         | customer :: _ =>
             orders <- query (select_orders_of (Some id)) ;;
             payments <- query (select_payments_of (Some id)) ;;
             ret (mkDetailResponse 200 (JDetail customer orders payments))
         end) (connect f d) with
  | (Ok r, s) => (r, store s)
  | (Throw e, s) => (mkDetailResponse 500 (JDetailError (message e)), store s)
  end.

End DetailRoute.

(* ================================================================= *)
(** ** The screens of the client *)




(** *** The API service layer *)

(** [body.error] *)
Definition body_error (b : Body) : option string :=
  match b with
  | JError m => Some m
  | _ => None
  end.


(** [request]: the body when [res.ok] (status 200 to 299), otherwise the
    thrown Error's message, [body.error || `HTTP ${res.status}`]. *)
Definition request {B : Type} (error : B -> option string) (status : nat)
    (body : B) : string + B :=
  if ((200 <=? status) && (status <=? 299))%nat then inr body
  else
    inl (match or_null (error body) with
         | Some m => m
         | None => "HTTP " ++ NilZero.string_of_uint (Nat.to_uint status)
         end)%string.

(** [String.prototype.includes] *)
Fixpoint includes (needle hay : string) : bool :=
  prefix needle hay
  || match hay with
     | EmptyString => false
     | String _ rest => includes needle rest
     end.

(** *** Customer detail screen: delete *)

Inductive DeleteAlert : Type :=
| AlertDeleted                     (* 'Başarılı', 'Müşteri silindi.' *)
| AlertCannotDelete                (* 'Silinemez' *)
| AlertDeleteFailed (m : string).  (* 'Hata', 'Silme işlemi başarısız: ' + m *)

(** The alert [handleDelete] shows for the answer of DELETE /customers/:id. *)
Definition handleDelete (r : Response) : DeleteAlert :=
  match request body_error (status r) (body r) with
  | inr _ => AlertDeleted
  | inl m =>
      if negb (falsy_str (Some m))
         && (includes "sipariş" m || includes "ödeme" m)
      then AlertCannotDelete
      else AlertDeleteFailed m
  end.

(** *** Customer detail screen: edit *)



(** *** Customer detail screen: payment *)


(** *** Customer detail screen: the timeline *)







(** *** Orders screen *)

(** A draft of the order store: [{ quantity, unitPrice }]. *)
Record Draft : Type := mkDraft {
  draft_quantity : Z;
  draft_unitPrice : Z
}.

Record Summary : Type := mkSummary {
  totalQuantity : Z;
  totalAmount : Z;
  customerCount : nat
}.

Section OrdersScreen.

(** The constant and the drafts come from the order store. *)
Variable DEFAULT_UNIT_PRICE : Z.
Variable draftOrders : Z -> option Draft.

(** [draft?.quantity ?? 0] *)
Definition qty_of (c : Customer) : Z :=
  match draftOrders (c_id c) with
  | Some dr => draft_quantity dr
  | None => 0
  end.

(** [draft?.unitPrice ?? DEFAULT_UNIT_PRICE] *)
Definition price_of (c : Customer) : Z :=
  match draftOrders (c_id c) with
  | Some dr => draft_unitPrice dr
  | None => DEFAULT_UNIT_PRICE
  end.

(** One turn of the loop of the [summary] memo. *)
Definition summary_step (acc : Summary) (customer : Customer) : Summary :=
  let qty := qty_of customer in
  if 0 <? qty
  then mkSummary (totalQuantity acc + qty)
                 (totalAmount acc + qty * price_of customer)
                 (S (customerCount acc))
  else acc.

(** The [summary] memo: one pass over the customers. *)
Definition summary (customers : list Customer) : Summary :=
  fold_left summary_step customers (mkSummary 0 0 0).

(** The rows [submitOrders] sends: one per customer with a draft of
    positive quantity, its total the product of quantity and unit price. *)
Definition submit_rows (orderGroupId : string) (customers : list Customer)
    : list CreateOrderRow :=
  map (fun c =>
         match draftOrders (c_id c) with
         | Some dr =>
             mkCreateOrderRow (Some (c_id c)) (Some (draft_quantity dr))
                              (Some (draft_unitPrice dr))
                              (Some (draft_quantity dr * draft_unitPrice dr))
                              (Some orderGroupId)
         | None => mkCreateOrderRow (Some (c_id c)) None None None
                                    (Some orderGroupId)
         end)
      (filter (fun c =>
                 match draftOrders (c_id c) with
                 | Some dr => 0 <? draft_quantity dr
                 | None => false
                 end) customers).

(** [handleSubmit], once confirmed: nothing is sent when the summary
    counts no customer. *)
Definition handleSubmit (orderGroupId : string) (customers : list Customer)
    : option (list CreateOrderRow) :=
  if Nat.eqb (customerCount (summary customers)) 0 then None
  else Some (submit_rows orderGroupId customers).

End OrdersScreen.

(* ================================================================= *)
(** * Properties *)

(** ** The monad: what a run of [bind] and of a store call can be *)

Lemma bind_inv {A B : Type} (m : M A) (k : A -> M B) s r s2 :
  bind m k s = (r, s2) ->
  (exists e, m s = (Throw e, s2) /\ r = Throw e)
  \/ (exists a s1, m s = (Ok a, s1) /\ k a s1 = (r, s2)).
Proof.
  unfold bind. destruct (m s) as [[a | e] s1]; intros H.
  - right. eauto.
  - left. inversion H; subst. eauto.
Qed.

Lemma query_inv {A : Type} (q : Stmt A) s r s' :
  query q s = (r, s') ->
  (exists e, r = Throw e /\ s' = tick (store s) (saved s) s)
  \/ (exists a d, throws s = false /\ q (store s) = inr (a, d)
                  /\ r = Ok a /\ s' = tick d (saved s) s).
Proof.
  unfold query. destruct (throws s).
  - intros H; inversion H; subst. left; eauto.
  - destruct (q (store s)) as [e | [a d]]; intros H; inversion H; subst.
    + left; eauto.
    + right; eauto 6.
Qed.

Lemma beginTransaction_inv s r s' :
  beginTransaction s = (r, s') ->
  (exists e, r = Throw e /\ s' = tick (store s) (saved s) s)
  \/ (throws s = false /\ r = Ok tt
      /\ s' = tick (store s) (Some (tables (store s))) s).
Proof.
  unfold beginTransaction. destruct (throws s); intros H; inversion H; subst.
  - left; eauto.
  - right; auto.
Qed.

Lemma commit_inv s r s' :
  commit s = (r, s') ->
  (exists e, r = Throw e /\ s' = tick (store s) (saved s) s)
  \/ (throws s = false /\ r = Ok tt /\ s' = tick (store s) None s).
Proof.
  unfold commit. destruct (throws s); intros H; inversion H; subst.
  - left; eauto.
  - right; auto.
Qed.

Lemma ret_inv {A : Type} (a : A) s r s' :
  ret a s = (r, s') -> r = Ok a /\ s' = s.
Proof. unfold ret. intros H; inversion H; auto. Qed.

(** Symbolic execution of a route: split every [bind], every store call
    and the final [ret] into its possible runs. *)
Ltac run_step :=
  match goal with
  | H : bind _ _ _ = (_, _) |- _ =>
      apply bind_inv in H;
      destruct H as [(? & H & ?) | (? & ? & ? & H)]
  | H : query _ _ = (_, _) |- _ =>
      apply query_inv in H;
      destruct H as [(? & ? & ?) | (? & ? & ? & ? & ? & ?)]
  | H : beginTransaction _ = (_, _) |- _ =>
      apply beginTransaction_inv in H;
      destruct H as [(? & ? & ?) | (? & ? & ?)]
  | H : commit _ = (_, _) |- _ =>
      apply commit_inv in H;
      destruct H as [(? & ? & ?) | (? & ? & ?)]
  | H : ret _ _ = (_, _) |- _ =>
      apply ret_inv in H; destruct H
  | H : Ok _ = Ok _ |- _ => inversion H; clear H
  | H : Ok _ = Throw _ |- _ => discriminate H
  | H : Throw _ = Ok _ |- _ => discriminate H
  | H : Throw _ = Throw _ |- _ => inversion H; clear H
  end.

(** ** Statements: what a successful statement did *)

Ltac stmt_step :=
  match goal with
  | H : insert_payment _ (Some _) (Some _) _ _ = _ |- _ =>
      unfold insert_payment in H;
      destruct (has_customer _ _) eqn:?; inversion H; clear H
  | H : insert_order _ _ _ _ _ _ _ = inr _ |- _ =>
      unfold insert_order in H;
      repeat match type of H with
             | context [match ?x with Some _ => _ | None => _ end] =>
                 destruct x eqn:?; try discriminate H
             end;
      destruct (has_customer _ _) eqn:?; inversion H; clear H
  | H : update_balance _ (Some _) _ _ = _ |- _ =>
      unfold update_balance in H; inversion H; clear H
  | H : select_balance _ _ = _ |- _ =>
      unfold select_balance in H; inversion H; clear H
  | H : settle_orders _ _ = _ |- _ =>
      unfold settle_orders in H; inversion H; clear H
  | H : select_payment _ _ = _ |- _ =>
      unfold select_payment in H; inversion H; clear H
  | H : select_customer _ _ = _ |- _ =>
      unfold select_customer in H; inversion H; clear H
  | H : count_orders _ _ = _ |- _ =>
      unfold count_orders in H; inversion H; clear H
  | H : count_payments _ _ = _ |- _ =>
      unfold count_payments in H; inversion H; clear H
  | H : insert_customer _ (Some _) _ _ = _ |- _ =>
      unfold insert_customer in H; inversion H; clear H
  | H : update_customer (Some _) _ _ _ = _ |- _ =>
      unfold update_customer in H; inversion H; clear H
  end.

Ltac simp_db :=
  cbn [store saved fault ticks tick customers orders payments
       next_customer_id next_order_id next_payment_id
       restore tables] in *.

Ltac exec :=
  repeat (first [run_step | stmt_step]; subst;
          repeat match goal with H : throws _ = false |- _ => clear H end;
          simp_db).

(** The two arms of a route's try/catch. *)
Ltac try_catch E :=
  match goal with
  | |- context [match ?x with pair _ _ => _ end] =>
      let a := fresh "a" in
      let e := fresh "e" in
      let s := fresh "s" in
      destruct x as [[a | e] s] eqn:E
  end.

(** Split conjunctions only (never a record such as [consistent]). *)
Ltac conj := repeat match goal with |- _ /\ _ => split end.

Ltac unchanged := left; cbn; repeat split; try lia; discriminate.

Lemma falsy_num_false x :
  falsy_num x = false -> exists v, x = Some v /\ v <> 0.
Proof.
  destruct x as [v|]; simpl; [|discriminate].
  intros H. exists v. split; [reflexivity|]. apply Z.eqb_neq; assumption.
Qed.

(** ** Ledger totals *)

Lemma sumZ_app l1 l2 : sumZ (l1 ++ l2) = sumZ l1 + sumZ l2.
Proof. induction l1 as [|x l1 IH]; simpl; [reflexivity | lia]. Qed.

Lemma order_total_app cid os o :
  order_total cid (os ++ [o])
  = order_total cid os + (if o_customer_id o =? cid then o_total_price o else 0).
Proof.
  unfold order_total, orders_of. rewrite filter_app, map_app, sumZ_app.
  simpl. destruct (o_customer_id o =? cid); simpl; lia.
Qed.

Lemma payment_total_app cid ps p :
  payment_total cid (ps ++ [p])
  = payment_total cid ps + (if p_customer_id p =? cid then p_amount p else 0).
Proof.
  unfold payment_total, payments_of. rewrite filter_app, map_app, sumZ_app.
  simpl. destruct (p_customer_id p =? cid); simpl; lia.
Qed.

Lemma settle_customer_id cid o : o_customer_id (settle cid o) = o_customer_id o.
Proof. unfold settle. destruct (_ && _); reflexivity. Qed.

Lemma settle_total_price cid o : o_total_price (settle cid o) = o_total_price o.
Proof. unfold settle. destruct (_ && _); reflexivity. Qed.

Lemma order_total_settle c cid os :
  order_total cid (map (settle c) os) = order_total cid os.
Proof.
  unfold order_total, orders_of.
  induction os as [|o os IH]; simpl; [reflexivity|].
  rewrite settle_customer_id.
  destruct (o_customer_id o =? cid); simpl;
    rewrite ?settle_total_price, IH; reflexivity.
Qed.

Lemma order_total_none cid os :
  Forall (fun o => o_customer_id o <> cid) os -> order_total cid os = 0.
Proof.
  unfold order_total, orders_of. induction 1 as [|o os Ho _ IH]; simpl.
  - reflexivity.
  - apply Z.eqb_neq in Ho. rewrite Ho. exact IH.
Qed.

Lemma payment_total_none cid ps :
  Forall (fun p => p_customer_id p <> cid) ps -> payment_total cid ps = 0.
Proof.
  unfold payment_total, payments_of. induction 1 as [|p ps Hp _ IH]; simpl.
  - reflexivity.
  - apply Z.eqb_neq in Hp. rewrite Hp. exact IH.
Qed.

(** ** Customers present in the store *)

Lemma has_customer_ids cid d :
  has_customer cid d = existsb (fun i => i =? cid) (map c_id (customers d)).
Proof.
  unfold has_customer. induction (customers d) as [|c cs IH]; simpl.
  - reflexivity.
  - rewrite IH. reflexivity.
Qed.

Lemma has_customer_same_ids cid d d' :
  map c_id (customers d') = map c_id (customers d) ->
  has_customer cid d' = has_customer cid d.
Proof. intros H. rewrite !has_customer_ids, H. reflexivity. Qed.

Lemma has_customer_In cid d :
  has_customer cid d = true <-> exists c, In c (customers d) /\ c_id c = cid.
Proof.
  unfold has_customer. rewrite existsb_exists. split.
  - intros (c & Hin & He). apply Z.eqb_eq in He. eauto.
  - intros (c & Hin & He). exists c. split; [assumption|].
    apply Z.eqb_eq; assumption.
Qed.

Lemma map_ids_if (P : Customer -> bool) (g : Customer -> Customer) cs :
  (forall c, c_id (g c) = c_id c) ->
  map c_id (map (fun c => if P c then g c else c) cs) = map c_id cs.
Proof.
  intros Hg. rewrite map_map. apply map_ext. intros c.
  destruct (P c); [apply Hg | reflexivity].
Qed.

(** ** The store stays consistent *)

Lemma NoDup_map_filter (A B : Type) (g : A -> B) (P : A -> bool) l :
  NoDup (map g l) -> NoDup (map g (filter P l)).
Proof.
  induction l as [|x l IH]; simpl; [auto|].
  intros H. inversion H as [|? ? Hx Hl]; subst.
  destruct (P x); simpl; [|auto]. constructor; [|auto].
  intros Hin. apply Hx. apply in_map_iff in Hin.
  destruct Hin as (y & <- & Hy). apply filter_In in Hy.
  apply in_map. apply Hy.
Qed.

Lemma consistent_empty : consistent empty_db.
Proof. constructor; simpl; auto; try lia. constructor. Qed.

(** Only the tables and two of the counters matter. *)
Lemma consistent_ext d d' :
  customers d' = customers d -> orders d' = orders d ->
  payments d' = payments d ->
  next_customer_id d' = next_customer_id d ->
  next_payment_id d <= next_payment_id d' ->
  consistent d -> consistent d'.
Proof.
  intros Hc Ho Hp Hn Hm [H0 Hu H1 H2 H3 H4 H5].
  assert (Hh : forall cid, has_customer cid d' = has_customer cid d)
    by (intros; apply has_customer_same_ids; rewrite Hc; reflexivity).
  constructor; rewrite ?Hc, ?Ho, ?Hp, ?Hn; auto.
  - eapply Forall_impl; [|exact H2]. cbn. intros o. rewrite Hh. auto.
  - eapply Forall_impl; [|exact H3]. cbn. intros p. rewrite Hh. auto.
  - eapply Forall_impl; [|exact H4]. cbn. intros p. lia.
  - eapply Forall_impl; [|exact H5]. unfold balanced. intros c.
    rewrite Ho, Hp. auto.
Qed.

Lemma owned_not_fresh (A : Type) (owner : A -> Z) d (l : list A) :
  Forall (fun c => 0 < c_id c < next_customer_id d) (customers d) ->
  Forall (fun x => has_customer (owner x) d = true) l ->
  Forall (fun x => owner x <> next_customer_id d) l.
Proof.
  intros Hids Hown. eapply Forall_impl; [|exact Hown]. cbn.
  intros x Hx. apply has_customer_In in Hx. destruct Hx as (c & Hin & He).
  rewrite Forall_forall in Hids. specialize (Hids c Hin). lia.
Qed.

(** INSERT INTO customers: a row with a fresh id and balance 0. *)
Lemma consistent_new_customer d d' n ph now :
  customers d' = customers d ++ [mkCustomer (next_customer_id d) n ph 0 now] ->
  orders d' = orders d -> payments d' = payments d ->
  next_customer_id d' = next_customer_id d + 1 ->
  next_payment_id d' = next_payment_id d ->
  consistent d -> consistent d'.
Proof.
  intros Hc Ho Hp Hn Hm [H0 Hu H1 H2 H3 H4 H5].
  assert (Hh : forall cid, has_customer cid d = true ->
                           has_customer cid d' = true).
  { intros cid. unfold has_customer. rewrite Hc, existsb_app.
    intros ->. reflexivity. }
  constructor; rewrite ?Hc, ?Ho, ?Hp, ?Hn, ?Hm; auto; try lia.
  - rewrite map_app. apply NoDup_app; [assumption | repeat constructor; auto |].
    cbn. intros i Hi [<- | []]. apply in_map_iff in Hi.
    destruct Hi as (c & He & Hi). rewrite Forall_forall in H1.
    specialize (H1 c Hi). lia.
  - apply Forall_app. split.
    + eapply Forall_impl; [|exact H1]. cbn. intros; lia.
    + repeat constructor; cbn; lia.
  - eapply Forall_impl; [|exact H2]. cbn. auto.
  - eapply Forall_impl; [|exact H3]. cbn. auto.
  - apply Forall_app. split.
    + eapply Forall_impl; [|exact H5]. unfold balanced. intros c.
      rewrite Ho, Hp. auto.
    + constructor; [|constructor]. unfold balanced. cbn. rewrite Ho, Hp.
      rewrite order_total_none, payment_total_none; [reflexivity | |].
      * apply (owned_not_fresh _ p_customer_id); assumption.
      * apply (owned_not_fresh _ o_customer_id); assumption.
Qed.

(** UPDATE customers SET name, phone: ids and balances stay. *)
Lemma consistent_renamed d d' (P : Customer -> bool) n ph :
  customers d'
  = map (fun c => if P c then set_name_phone n ph c else c) (customers d) ->
  orders d' = orders d -> payments d' = payments d ->
  next_customer_id d' = next_customer_id d ->
  next_payment_id d' = next_payment_id d ->
  consistent d -> consistent d'.
Proof.
  intros Hc Ho Hp Hn Hm [H0 Hu H1 H2 H3 H4 H5].
  assert (Hh : forall cid, has_customer cid d' = has_customer cid d).
  { intros. apply has_customer_same_ids. rewrite Hc.
    apply map_ids_if. reflexivity. }
  constructor; rewrite ?Ho, ?Hp, ?Hn, ?Hm; auto.
  - rewrite Hc, map_ids_if by reflexivity. assumption.
  - rewrite Hc. apply Forall_map. eapply Forall_impl; [|exact H1]. cbn.
    intros c. destruct (P c); auto.
  - eapply Forall_impl; [|exact H2]. cbn. intros o. rewrite Hh. auto.
  - eapply Forall_impl; [|exact H3]. cbn. intros p. rewrite Hh. auto.
  - rewrite Hc. apply Forall_map. eapply Forall_impl; [|exact H5].
    unfold balanced. rewrite Ho, Hp. intros c. destruct (P c); auto.
Qed.

(** DELETE FROM customers, for a customer no order or payment refers to. *)
Lemma consistent_deleted d d' id :
  existsb (fun o => o_customer_id o =? id) (orders d) = false ->
  existsb (fun p => p_customer_id p =? id) (payments d) = false ->
  customers d' = filter (fun c => negb (c_id c =? id)) (customers d) ->
  orders d' = orders d -> payments d' = payments d ->
  next_customer_id d' = next_customer_id d ->
  next_payment_id d' = next_payment_id d ->
  consistent d -> consistent d'.
Proof.
  intros Eo Ep Hc Ho Hp Hn Hm [H0 Hu H1 H2 H3 H4 H5].
  assert (Hh : forall cid, cid <> id -> has_customer cid d = true ->
                           has_customer cid d' = true).
  { intros cid Hne Hin. apply has_customer_In in Hin.
    destruct Hin as (c & Hin & He). apply has_customer_In. exists c.
    split; [|assumption]. rewrite Hc. apply filter_In. split; [assumption|].
    apply negb_true_iff, Z.eqb_neq. congruence. }
  constructor; rewrite ?Ho, ?Hp, ?Hn, ?Hm; auto.
  - rewrite Hc. apply NoDup_map_filter. assumption.
  - rewrite Hc. rewrite Forall_forall in *. intros c Hin.
    apply filter_In in Hin. apply H1, Hin.
  - rewrite Forall_forall in *. intros o Hin. apply Hh; [|auto].
    intros He. rewrite <- not_true_iff_false in Eo. apply Eo.
    apply existsb_exists. exists o. split; [assumption|].
    apply Z.eqb_eq; assumption.
  - rewrite Forall_forall in *. intros p Hin. apply Hh; [|auto].
    intros He. rewrite <- not_true_iff_false in Ep. apply Ep.
    apply existsb_exists. exists p. split; [assumption|].
    apply Z.eqb_eq; assumption.
  - rewrite Hc. rewrite Forall_forall in *. intros c Hin.
    apply filter_In in Hin. unfold balanced. rewrite Ho, Hp.
    apply H5, Hin.
Qed.

(** INSERT INTO orders followed by the balance increment. *)
Lemma consistent_order d d' o :
  has_customer (o_customer_id o) d = true ->
  customers d'
  = map (fun c => if c_id c =? o_customer_id o
                  then set_balance (c_current_balance c + o_total_price o) c
                  else c) (customers d) ->
  orders d' = orders d ++ [o] -> payments d' = payments d ->
  next_customer_id d' = next_customer_id d ->
  next_payment_id d' = next_payment_id d ->
  consistent d -> consistent d'.
Proof.
  intros Hin Hc Ho Hp Hn Hm [H0 Hu H1 H2 H3 H4 H5].
  assert (Hh : forall cid, has_customer cid d' = has_customer cid d).
  { intros. apply has_customer_same_ids. rewrite Hc.
    apply map_ids_if. reflexivity. }
  constructor; rewrite ?Hp, ?Hn, ?Hm; auto.
  - rewrite Hc, map_ids_if by reflexivity. assumption.
  - rewrite Hc. apply Forall_map. eapply Forall_impl; [|exact H1]. cbn.
    intros c. destruct (_ =? _); auto.
  - rewrite Ho. apply Forall_app. split.
    + eapply Forall_impl; [|exact H2]. cbn. intros x. rewrite Hh. auto.
    + repeat constructor. rewrite Hh. assumption.
  - eapply Forall_impl; [|exact H3]. cbn. intros p. rewrite Hh. auto.
  - rewrite Hc. apply Forall_map. eapply Forall_impl; [|exact H5].
    unfold balanced. rewrite Ho, Hp. intros c Hb.
    destruct (c_id c =? o_customer_id o) eqn:E; cbn;
      rewrite order_total_app, Hb, Z.eqb_sym, E; lia.
Qed.

(** INSERT INTO payments, the balance decrement, and the status flip. *)
Lemma consistent_payment d d' p c :
  has_customer (p_customer_id p) d = true ->
  p_id p = next_payment_id d ->
  customers d'
  = map (fun c => if c_id c =? p_customer_id p
                  then set_balance (c_current_balance c - p_amount p) c
                  else c) (customers d) ->
  orders d' = orders d \/ orders d' = map (settle c) (orders d) ->
  payments d' = payments d ++ [p] ->
  next_customer_id d' = next_customer_id d ->
  next_payment_id d' = next_payment_id d + 1 ->
  consistent d -> consistent d'.
Proof.
  intros Hin Hid Hc Ho Hp Hn Hm [H0 Hu H1 H2 H3 H4 H5].
  assert (Hh : forall cid, has_customer cid d' = has_customer cid d).
  { intros. apply has_customer_same_ids. rewrite Hc.
    apply map_ids_if. reflexivity. }
  assert (Ht : forall cid, order_total cid (orders d')
                           = order_total cid (orders d)).
  { intros. destruct Ho as [-> | ->]; [reflexivity|].
    apply order_total_settle. }
  constructor; rewrite ?Hn, ?Hm; auto.
  - rewrite Hc, map_ids_if by reflexivity. assumption.
  - rewrite Hc. apply Forall_map. eapply Forall_impl; [|exact H1]. cbn.
    intros x. destruct (_ =? _); auto.
  - destruct Ho as [-> | ->].
    + eapply Forall_impl; [|exact H2]. cbn. intros x. rewrite Hh. auto.
    + apply Forall_map. eapply Forall_impl; [|exact H2]. cbn. intros x.
      rewrite settle_customer_id, Hh. auto.
  - rewrite Hp. apply Forall_app. split.
    + eapply Forall_impl; [|exact H3]. cbn. intros x. rewrite Hh. auto.
    + repeat constructor. rewrite Hh. assumption.
  - rewrite Hp. apply Forall_app. split.
    + eapply Forall_impl; [|exact H4]. cbn. intros; lia.
    + repeat constructor. lia.
  - rewrite Hc. apply Forall_map. eapply Forall_impl; [|exact H5].
    unfold balanced. rewrite Hp. intros x Hb.
    destruct (c_id x =? p_customer_id p) eqn:E; cbn;
      rewrite Ht, payment_total_app, Hb, Z.eqb_sym, E; lia.
Qed.

(** ** The customer routes *)

Lemma name_missing_false x :
  name_missing x = false -> exists n, x = Some n.
Proof. destruct x as [n|]; [eauto | discriminate]. Qed.

Lemma filter_none_length (A : Type) (P : A -> bool) l :
  List.length (filter P l) = 0%nat -> existsb P l = false.
Proof.
  induction l as [|x l IH]; simpl; [reflexivity|].
  destruct (P x); simpl; [discriminate | exact IH].
Qed.

Lemma filter_length_none (A : Type) (P : A -> bool) l :
  existsb P l = false -> List.length (filter P l) = 0%nat.
Proof.
  induction l as [|x l IH]; simpl; [reflexivity|].
  destruct (P x); simpl; [discriminate | exact IH].
Qed.

Lemma filter_negb_none (A : Type) (P : A -> bool) l :
  existsb P l = false -> filter (fun x => negb (P x)) l = l.
Proof.
  induction l as [|x l IH]; simpl; [reflexivity|].
  destruct (P x); simpl; [discriminate|]. intros H. rewrite IH; auto.
Qed.

Lemma post_customers_outcome f now b d r d' :
  post_customers f now b d = (r, d') ->
  orders d' = orders d /\ payments d' = payments d
  /\ next_payment_id d' = next_payment_id d
  /\ ((customers d' = customers d
       /\ next_customer_id d' = next_customer_id d)
      \/ (exists n ph,
            customers d'
            = customers d ++ [mkCustomer (next_customer_id d) n ph 0 now]
            /\ next_customer_id d' = next_customer_id d + 1)).
Proof.
  unfold post_customers. destruct (name_missing (name b)) eqn:Hv.
  { intros H; inversion H; subst. auto 6. }
  apply name_missing_false in Hv. destruct Hv as (n & ->). cbn [option_map].
  try_catch E; intros H; inversion H; subst; clear H;
    unfold connect in E; exec; eauto 10.
Qed.

Lemma put_customers_outcome f id b d r d' :
  put_customers f id b d = (r, d') ->
  orders d' = orders d /\ payments d' = payments d
  /\ next_customer_id d' = next_customer_id d
  /\ next_payment_id d' = next_payment_id d
  /\ (customers d' = customers d
      \/ exists n,
           name b = Some n
           /\ customers d'
              = map (fun c => if c_id c =? id
                              then set_name_phone (trim n) (or_null (phone b)) c
                              else c) (customers d)).
Proof.
  unfold put_customers. destruct (name_missing (name b)) eqn:Hv.
  { intros H; inversion H; subst. auto 6. }
  apply name_missing_false in Hv. destruct Hv as (n & Hn). rewrite Hn.
  cbn [option_map].
  try_catch E; intros H; inversion H; subst; clear H;
    unfold connect in E; exec; eauto 10.
  all: match goal with
       | H : (if ?c then _ else _) _ = _ |- _ => destruct c; exec
       end; eauto 10.
Qed.

Lemma delete_customers_outcome f id d r d' :
  delete_customers f id d = (r, d') ->
  orders d' = orders d /\ payments d' = payments d
  /\ next_customer_id d' = next_customer_id d
  /\ next_payment_id d' = next_payment_id d
  /\ ((customers d' = customers d /\ status r <> 200%nat)
      \/ (r = mkResponse 200 (JMessage customer_deleted)
          /\ has_customer id d = true
          /\ orders_of id (orders d) = []
          /\ payments_of id (payments d) = []
          /\ customers d'
             = filter (fun c => negb (c_id c =? id)) (customers d))).
Proof.
  unfold delete_customers.
  try_catch E; intros H; inversion H; subst; clear H;
    unfold connect in E; exec;
    repeat match goal with
      | H : (if ?c then _ else _) _ = _ |- _ => destruct c eqn:?; exec
      end;
    try (repeat split; auto; left; split; [reflexivity | discriminate]).
  all: unfold delete_customer in *; cbn [id_is] in *;
    match goal with
    | H : (if ?c then _ else _) = inr _ |- _ =>
        destruct c eqn:?; [discriminate H | injection H as <- <-]; cbn
    end.
  - repeat split; auto. left. split; [|discriminate].
    apply filter_negb_none, filter_none_length, Nat.eqb_eq. assumption.
  - repeat split; auto. right.
    repeat match goal with
      | H : (0 <? _)%nat = false |- _ =>
          apply Nat.ltb_ge in H; apply Nat.le_0_r, length_zero_iff_nil in H
      end.
    repeat split; auto. unfold has_customer.
    apply not_false_iff_true. intros Ex.
    apply filter_length_none in Ex. rewrite Ex in *. discriminate.
Qed.

(** Without a fault the route is this decision: orders first, then
    payments, then the delete. *)
Lemma delete_customers_decision id d :
  delete_customers None id d
  = if (0 <? List.length (orders_of id (orders d)))%nat
    then (mkResponse 400 (JError has_orders), d)
    else if (0 <? List.length (payments_of id (payments d)))%nat
    then (mkResponse 400 (JError has_payments), d)
    else if has_customer id d
    then (mkResponse 200 (JMessage customer_deleted),
          mkDB (filter (fun c => negb (c_id c =? id)) (customers d))
               (orders d) (payments d)
               (next_customer_id d) (next_order_id d) (next_payment_id d))
    else (mkResponse 404 (JError customer_not_found), d).
Proof.
  unfold delete_customers, bind, query, connect, throws, tick, ret,
    count_orders, count_payments, orders_of, payments_of.
  cbn [fault ticks store saved id_is].
  destruct (0 <? _)%nat eqn:Eo; [reflexivity|]. cbn [fault ticks store saved].
  destruct (0 <? List.length (filter _ (payments d)))%nat eqn:Ep;
    [reflexivity|].
  cbn [fault ticks store saved]. unfold delete_customer. cbn [id_is].
  apply Nat.ltb_ge, Nat.le_0_r, filter_none_length in Eo, Ep.
  rewrite Eo, Ep, andb_false_r. cbn [orb].
  unfold has_customer.
  destruct (existsb _ (customers d)) eqn:Ec.
  - destruct (_ =? 0)%nat eqn:El; [|reflexivity].
    apply Nat.eqb_eq, filter_none_length in El. congruence.
  - rewrite filter_negb_none by assumption.
    rewrite (filter_length_none _ _ _ Ec). cbn. destruct d; reflexivity.
Qed.

(** ** POST /orders *)

(** The loop keeps the snapshot, the payments and the customer ids, and
    only appends to the orders; when it runs to its end, it also keeps
    the store consistent. *)
Lemma insert_rows_run now rows :
  forall acc s r s',
    insert_rows now rows acc s = (r, s') ->
    saved s' = saved s
    /\ payments (store s') = payments (store s)
    /\ next_customer_id (store s') = next_customer_id (store s)
    /\ next_payment_id (store s') = next_payment_id (store s)
    /\ map c_id (customers (store s')) = map c_id (customers (store s))
    /\ (exists extra, orders (store s') = orders (store s) ++ extra)
    /\ (consistent (store s) -> forall ids, r = Ok ids -> consistent (store s')).
Proof.
  induction rows as [|order rest IH]; intros acc s r s' H; cbn [insert_rows] in H.
  - exec. conj; auto. exists []. rewrite app_nil_r. reflexivity.
  - exec;
      try solve [ rewrite ?map_ids_if by reflexivity; conj; eauto;
                  try discriminate;
                  exists []; rewrite app_nil_r; reflexivity ].
    apply IH in H. simp_db.
    destruct H as (Hs & Hp & Hc & Hm & Hi & (extra & Ho) & Hk).
    rewrite map_ids_if in Hi by reflexivity.
    conj; auto.
    + rewrite Ho, <- app_assoc. eauto.
    + intros Hcons ids ->. apply Hk with (ids := ids); [|reflexivity].
      eapply consistent_order with (d := store s); try reflexivity;
        cbn; eauto.
Qed.

(** A row whose customer is unknown makes the loop throw. *)
Lemma insert_rows_unknown now rows :
  forall acc s r s',
    Exists (fun row => unknown_customer row (store s) = true) rows ->
    insert_rows now rows acc s = (r, s') ->
    exists e, r = Throw e.
Proof.
  induction rows as [|order rest IH]; intros acc s r s' Hex H.
  - inversion Hex.
  - cbn [insert_rows] in H.
    apply bind_inv in H. destruct H as [(e & _ & ->) | (id & s1 & Hq & H)];
      [eauto|].
    apply bind_inv in H. destruct H as [(e & _ & ->) | (u & s2 & Hu & H)];
      [eauto|].
    inversion Hex as [? ? Hbad | ? ? Hlater]; subst.
    + exfalso. exec. unfold unknown_customer in Hbad.
      match goal with
      | H1 : customer_id order = Some _ |- _ => rewrite H1 in Hbad
      end.
      apply negb_true_iff in Hbad. congruence.
    + exec. eapply IH; [|exact H]. simp_db.
      eapply Exists_impl; [|exact Hlater]. cbn. intros row.
      unfold unknown_customer. destruct (customer_id row) as [c|]; [|auto].
      intros Hu. rewrite <- Hu. f_equal. apply has_customer_same_ids.
      cbn. apply map_ids_if. reflexivity.
Qed.

Lemma post_orders_outcome f now b d r d' :
  post_orders f now b d = (r, d') ->
  payments d' = payments d
  /\ next_customer_id d' = next_customer_id d
  /\ next_payment_id d' = next_payment_id d
  /\ ((status r <> 201%nat /\ customers d' = customers d
       /\ orders d' = orders d)
      \/ (status r = 201%nat
          /\ map c_id (customers d') = map c_id (customers d)
          /\ (exists extra, orders d' = orders d ++ extra)
          /\ (consistent d -> consistent d'))).
Proof.
  unfold post_orders.
  destruct b as [|[|order rest]];
    try (intros H; inversion H; subst; conj; auto; left;
         conj; auto; discriminate).
  try_catch E; intros H; inversion H; subst; clear H; unfold connect in E.
  - exec.
    match goal with
    | H : insert_rows _ _ _ _ = _ |- _ =>
        apply insert_rows_run in H; simp_db;
        destruct H as (Hs & Hp & Hc & Hm & Hi & Ho & Hk)
    end.
    conj; auto. right. conj; auto.
    intros Hcons. eapply Hk; eauto.
  - apply bind_inv in E. destruct E as [(e' & E & He) | (u & s1 & Hb & E)].
    + exec. conj; auto. left. conj; auto; discriminate.
    + apply beginTransaction_inv in Hb.
      destruct Hb as [(? & ? & ?) | (_ & _ & ->)]; [discriminate|].
      simp_db.
      apply bind_inv in E. destruct E as [(e' & E & He) | (ids & s2 & Hl & E)].
      * apply insert_rows_run in E. simp_db.
        destruct E as (Hs & Hp & Hc & Hm & _).
        unfold rollback. rewrite Hs. cbn.
        conj; auto. left. conj; auto; discriminate.
      * apply insert_rows_run in Hl. simp_db.
        destruct Hl as (Hs & Hp & Hc & Hm & _).
        exec; unfold rollback; cbn [saved tick]; rewrite Hs; cbn;
          conj; auto; left; conj; auto; discriminate.
Qed.

(** ** POST /payments: every run either leaves the tables as they were
    or commits the payment, the new balance and the settlement. *)

Lemma post_payments_outcome f now b d r d' :
  post_payments f now b d = (r, d') ->
  (status r <> 201%nat /\ customers d' = customers d /\ orders d' = orders d
   /\ payments d' = payments d /\ next_customer_id d' = next_customer_id d
   /\ next_payment_id d <= next_payment_id d')
  \/ (exists cid a,
        pay_customer_id b = Some cid /\ amount b = Some a
        /\ cid <> 0 /\ a <> 0 /\ has_customer cid d = true
        /\ customers d'
           = map (fun c => if c_id c =? cid
                           then set_balance (c_current_balance c - a) c
                           else c) (customers d)
        /\ payments d'
           = payments d
             ++ [mkPayment (next_payment_id d) cid a now (or_null (note b))]
        /\ orders d'
           = (if balance_cleared (balance_rows cid d')
              then map (settle (Some cid)) (orders d) else orders d)
        /\ next_customer_id d' = next_customer_id d
        /\ next_payment_id d' = next_payment_id d + 1
        /\ (r = mkResponse 201
                  (JPayment (hd_error (filter (fun p => p_id p =? next_payment_id d)
                                              (payments d'))))
            \/ status r = 500%nat)).
Proof.
  unfold post_payments.
  destruct (falsy_num (pay_customer_id b) || falsy_num (amount b)) eqn:Hv.
  { intros H; inversion H; subst. unchanged. }
  apply orb_false_elim in Hv. destruct Hv as [Hc Ha].
  apply falsy_num_false in Hc. destruct Hc as (cid & Hc & Hcid).
  apply falsy_num_false in Ha. destruct Ha as (a & Ha & Haz).
  rewrite Hc, Ha.
  try_catch E; intros H; inversion H; subst; clear H.
  - unfold connect, auto_settle in E. exec.
    right. exists cid, a. 
    destruct (balance_cleared _) eqn:Hb in *; exec; unfold balance_rows; cbn; rewrite Hb; auto 15.
  - unfold connect, auto_settle in E. 
    exec; try unchanged.
    all: try (destruct (balance_cleared _) eqn:Hb in *; exec; try unchanged).
    all: right; exists cid, a; unfold balance_rows; cbn; rewrite Hb; auto 15.
Qed.

(** ** Every request keeps the store consistent *)

Lemma handle_consistent fr d :
  consistent d -> consistent (snd (handle fr d)).
Proof.
  intros Hd. destruct fr as [f [now b | id b | id | now b | now b]];
    cbn [handle]; match goal with |- context [snd ?x] =>
      destruct x as [r d'] eqn:E end; cbn [snd].
  - apply post_customers_outcome in E.
    destruct E as (Ho & Hp & Hm & [(Hc & Hn) | (n & ph & Hc & Hn)]).
    + apply (consistent_ext d); auto. lia.
    + eapply consistent_new_customer; eauto.
  - apply put_customers_outcome in E.
    destruct E as (Ho & Hp & Hn & Hm & [Hc | (n & _ & Hc)]).
    + apply (consistent_ext d); auto. lia.
    + apply (consistent_renamed d d' (fun c => c_id c =? id) (trim n)
                                (or_null (phone b))); auto.
  - apply delete_customers_outcome in E.
    destruct E as (Ho & Hp & Hn & Hm & [(Hc & _) | (_ & _ & Eo & Ep & Hc)]).
    + apply (consistent_ext d); auto. lia.
    + apply (consistent_deleted d d' id); auto.
      * apply filter_none_length. unfold orders_of in Eo. rewrite Eo.
        reflexivity.
      * apply filter_none_length. unfold payments_of in Ep. rewrite Ep.
        reflexivity.
  - apply post_orders_outcome in E.
    destruct E as (Hp & Hn & Hm & [(_ & Hc & Ho) | (_ & _ & _ & Hk)]).
    + apply (consistent_ext d); auto. lia.
    + auto.
  - apply post_payments_outcome in E.
    destruct E as [(_ & Hc & Ho & Hp & Hn & Hm)
                  | (cid & a & _ & _ & _ & _ & Hin & Hc & Hp & Ho & Hn & Hm & _)].
    + apply (consistent_ext d); auto.
    + eapply (consistent_payment d d'
                (mkPayment (next_payment_id d) cid a now (or_null (note b)))
                (Some cid)); cbn; auto.
      rewrite Ho. destruct (balance_cleared _); auto.
Qed.

Lemma run_cons fr rs d : run (fr :: rs) d = run rs (snd (handle fr d)).
Proof. reflexivity. Qed.

Lemma run_consistent rs : forall d, consistent d -> consistent (run rs d).
Proof.
  induction rs as [|fr rs IH]; intros d Hd; [exact Hd|].
  rewrite run_cons. apply IH, handle_consistent, Hd.
Qed.

Lemma reachable_consistent d : reachable d -> consistent d.
Proof. intros (rs & ->). apply run_consistent, consistent_empty. Qed.


(** ** The stores of the scenarios *)

Lemma two_orders_reachable : reachable two_orders.
Proof. eexists. reflexivity. Qed.

Lemma pairing (A B : Type) (p : A * B) : p = (fst p, snd p).
Proof. destruct p; reflexivity. Defined.

(** ** Balances read back *)

Lemma balance_rows_debit cid a d d' :
  customers d'
  = map (fun c => if c_id c =? cid
                  then set_balance (c_current_balance c - a) c
                  else c) (customers d) ->
  balance_rows cid d' = map (fun b => b - a) (balance_rows cid d).
Proof.
  unfold balance_rows. intros ->.
  induction (customers d) as [|c cs IH]; simpl; [reflexivity|].
  destruct (c_id c =? cid) eqn:E; simpl; rewrite E; simpl; rewrite IH;
    reflexivity.
Qed.

Lemma balance_rows_present cid d :
  has_customer cid d = true -> balance_rows cid d <> [].
Proof.
  unfold has_customer, balance_rows.
  induction (customers d) as [|c cs IH]; simpl; [discriminate|].
  destruct (c_id c =? cid); simpl; [discriminate | exact IH].
Qed.

Lemma filter_unique_id cid cs c :
  NoDup (map c_id cs) -> In c cs -> c_id c = cid ->
  filter (fun x => c_id x =? cid) cs = [c].
Proof.
  induction cs as [|x cs IH]; simpl; [contradiction|].
  intros Hnd Hin He. inversion Hnd as [|? ? Hx Hcs]; subst.
  destruct Hin as [-> | Hin].
  - rewrite Z.eqb_refl. f_equal.
    destruct (filter (fun x => c_id x =? c_id c) cs) as [|y l] eqn:F;
      [reflexivity|].
    exfalso. apply Hx.
    assert (Hy : In y (filter (fun x => c_id x =? c_id c) cs))
      by (rewrite F; left; reflexivity).
    apply filter_In in Hy. destruct Hy as [Hy E]. apply Z.eqb_eq in E.
    rewrite <- E. apply in_map. assumption.
  - destruct (c_id x =? c_id c) eqn:E.
    + exfalso. apply Hx. apply Z.eqb_eq in E. rewrite E.
      apply in_map. assumption.
    + apply IH; auto.
Qed.

Lemma balance_rows_consistent cid d :
  consistent d -> has_customer cid d = true ->
  balance_rows cid d
  = [order_total cid (orders d) - payment_total cid (payments d)].
Proof.
  intros Hd Hin. apply has_customer_In in Hin. destruct Hin as (c & Hin & He).
  unfold balance_rows.
  rewrite (filter_unique_id cid _ c (ids_unique d Hd) Hin He). cbn.
  pose proof (balances d Hd) as Hb. rewrite Forall_forall in Hb.
  rewrite (Hb c Hin), He. reflexivity.
Qed.

Lemma orders_of_settle c cid os :
  orders_of cid (map (settle c) os) = map (settle c) (orders_of cid os).
Proof.
  unfold orders_of. induction os as [|o os IH]; simpl; [reflexivity|].
  rewrite settle_customer_id. destruct (o_customer_id o =? cid); simpl;
    rewrite IH; reflexivity.
Qed.

Lemma orders_of_owner cid os :
  Forall (fun o => o_customer_id o = cid) (orders_of cid os).
Proof.
  apply Forall_forall. intros o Hin. apply filter_In in Hin.
  apply Z.eqb_eq, Hin.
Qed.

Lemma settle_own_pending cid o :
  o_customer_id o = cid -> o_status o = pending ->
  settle (Some cid) o = set_status paid o.
Proof.
  intros Hc Hs. unfold settle. cbn [id_is].
  rewrite Hs. apply Z.eqb_eq in Hc. rewrite Hc. reflexivity.
Qed.

Lemma settled_paid cid os :
  Forall (fun o => o_status o = paid)
         (orders_of cid (map (settle (Some cid)) os)).
Proof.
  rewrite orders_of_settle. apply Forall_map.
  eapply Forall_impl; [|apply orders_of_owner]. cbn. intros o Ho.
  unfold settle. cbn [id_is]. apply Z.eqb_eq in Ho. rewrite Ho.
  destruct (o_status o) eqn:Es; cbn; [reflexivity | exact Es].
Qed.

(** Without a fault, a well-formed payment for a known customer is
    answered 201. *)
Lemma post_payments_accepts now b d cid a :
  pay_customer_id b = Some cid -> amount b = Some a ->
  cid <> 0 -> a <> 0 -> has_customer cid d = true ->
  status (fst (post_payments None now b d)) = 201%nat.
Proof.
  intros Hc Ha Hcz Haz Hin. unfold post_payments. rewrite Hc, Ha.
  cbn [falsy_num]. apply Z.eqb_neq in Hcz, Haz. rewrite Hcz, Haz.
  cbn [orb].
  unfold bind, query, beginTransaction, commit, ret, connect, throws, tick,
    insert_payment.
  cbn [fault ticks store saved]. rewrite Hin.
  cbn [fault ticks store saved update_balance select_balance].
  unfold auto_settle. destruct (balance_cleared _); reflexivity.
Qed.

(** C2. Settlement rule of payment creation.  (1) Whenever a payment is
    answered 201, its row has been inserted and the customer's balance
    decremented by the amount; the balance is then read again: if it is at
    most 0, every pending order of that customer has become paid (all of
    them, whatever their totals and dates) and the other orders are as they
    were; if it is positive, no order has changed.  (2) In particular, for a
    customer of a reachable store whose orders are two pending orders
    totalling 150.00 and who has paid nothing yet, a payment of 150.00 or
    more marks both paid, and a payment of 100.00 leaves both pending and
    the balance at 50.00. *)
Theorem payment_settlement :
  (forall f now b d r d',
      post_payments f now b d = (r, d') ->
      status r = 201%nat ->
      exists cid a bal,
        pay_customer_id b = Some cid /\ amount b = Some a
        /\ payments d'
           = payments d
             ++ [mkPayment (next_payment_id d) cid a now (or_null (note b))]
        /\ customers d'
           = map (fun c => if c_id c =? cid
                           then set_balance (c_current_balance c - a) c
                           else c) (customers d)
        /\ hd_error (balance_rows cid d') = Some bal
        /\ (bal <= 0 ->
            orders d' = map (settle (Some cid)) (orders d)
            /\ Forall (fun o => o_status o = paid) (orders_of cid (orders d')))
        /\ (0 < bal -> orders d' = orders d))
  /\ (forall now d cid o1 o2 a r d',
         reachable d ->
         orders_of cid (orders d) = [o1; o2] ->
         o_status o1 = pending -> o_status o2 = pending ->
         o_total_price o1 + o_total_price o2 = 15000 ->
         payments_of cid (payments d) = [] ->
         post_payments None now (pay cid a) d = (r, d') ->
         (15000 <= a ->
          status r = 201%nat
          /\ orders_of cid (orders d')
             = [set_status paid o1; set_status paid o2])
         /\ (a = 10000 ->
             status r = 201%nat
             /\ orders_of cid (orders d') = [o1; o2]
             /\ balance_rows cid d' = [5000])).
Proof.
  assert (rule : forall f now b d r d',
      post_payments f now b d = (r, d') ->
      status r = 201%nat ->
      exists cid a bal,
        pay_customer_id b = Some cid /\ amount b = Some a
        /\ has_customer cid d = true
        /\ payments d'
           = payments d
             ++ [mkPayment (next_payment_id d) cid a now (or_null (note b))]
        /\ customers d'
           = map (fun c => if c_id c =? cid
                           then set_balance (c_current_balance c - a) c
                           else c) (customers d)
        /\ hd_error (balance_rows cid d') = Some bal
        /\ (bal <= 0 -> orders d' = map (settle (Some cid)) (orders d))
        /\ (0 < bal -> orders d' = orders d)).
  { intros f now b d r d' H Hs. apply post_payments_outcome in H.
    destruct H as [(Hn & _) | (cid & a & Hc & Ha & _ & _ & Hin & Hcs & Hps
                               & Hos & _)]; [contradiction|].
    pose proof (balance_rows_present cid d Hin) as Hne.
    pose proof (balance_rows_debit cid a d d' Hcs) as Hrd.
    rewrite Hrd in Hos.
    destruct (balance_rows cid d) as [|b0 rows] eqn:Hrows; [congruence|].
    exists cid, a, (b0 - a). rewrite Hrd. cbn [map hd_error] in *.
    unfold balance_cleared in Hos. cbn in Hos.
    conj; auto.
    - intros Hle. apply Z.leb_le in Hle. rewrite Hle in Hos. exact Hos.
    - intros Hlt. apply Z.leb_gt in Hlt. rewrite Hlt in Hos. exact Hos. }
  split.
  - intros f now b d r d' H Hs.
    destruct (rule f now b d r d' H Hs)
      as (cid & a & bal & Hc & Ha & _ & Hps & Hcs & Hb & Hle & Hgt).
    exists cid, a, bal. conj; auto.
    intros Hbal. specialize (Hle Hbal). split; [exact Hle|].
    rewrite Hle. apply settled_paid.
  - intros now d cid o1 o2 a r d' Hr Hos H1 H2 Ht Hps H.
    pose proof (reachable_consistent d Hr) as Hd.
    assert (Hin : has_customer cid d = true).
    { pose proof (orders_owned d Hd) as Ho. rewrite Forall_forall in Ho.
      assert (Ho1 : In o1 (orders_of cid (orders d)))
        by (rewrite Hos; left; reflexivity).
      apply filter_In in Ho1. destruct Ho1 as [Ho1 E].
      apply Z.eqb_eq in E. rewrite <- E. apply Ho, Ho1. }
    assert (Hpos : cid <> 0).
    { apply has_customer_In in Hin. destruct Hin as (c & Hc & He).
      pose proof (ids_issued d Hd) as Hi. rewrite Forall_forall in Hi.
      specialize (Hi c Hc). lia. }
    assert (Hbal : balance_rows cid d = [15000]).
    { rewrite (balance_rows_consistent cid d Hd Hin).
      unfold order_total, payment_total. rewrite Hos, Hps. cbn.
      f_equal. lia. }
    assert (Hacc : a <> 0 -> status r = 201%nat).
    { intros Ha.
      pose proof (post_payments_accepts now (pay cid a) d cid a
                    eq_refl eq_refl Hpos Ha Hin) as Hs.
      rewrite H in Hs. exact Hs. }
    pose proof (orders_of_owner cid (orders d)) as Hown.
    rewrite Hos in Hown.
    apply Forall_cons_iff in Hown. destruct Hown as [Hc1 Hown].
    apply Forall_cons_iff in Hown. destruct Hown as [Hc2 _].
    split; intros Ha.
    + assert (Hs : status r = 201%nat) by (apply Hacc; lia).
      split; [exact Hs|].
      destruct (rule None now (pay cid a) d r d' H Hs)
        as (cid' & a' & bal & Hc & Hb & _ & _ & Hcs & Hhd & Hle & _).
      cbn [pay pay_customer_id amount] in Hc, Hb. injection Hc as <-. injection Hb as <-.
      rewrite (balance_rows_debit _ _ _ _ Hcs), Hbal in Hhd.
      assert (Ebal : bal = 15000 - a) by (cbn [map hd_error] in Hhd; congruence).
      rewrite Hle by lia. rewrite orders_of_settle, Hos. cbn [map].
      rewrite !settle_own_pending by assumption. reflexivity.
    + assert (Hs : status r = 201%nat) by (apply Hacc; lia).
      split; [exact Hs|].
      destruct (rule None now (pay cid a) d r d' H Hs)
        as (cid' & a' & bal & Hc & Hb & _ & _ & Hcs & Hhd & _ & Hgt).
      cbn [pay pay_customer_id amount] in Hc, Hb. injection Hc as <-. injection Hb as <-.
      rewrite (balance_rows_debit _ _ _ _ Hcs), Hbal in Hhd |- *.
      assert (Ebal : bal = 15000 - a) by (cbn [map hd_error] in Hhd; congruence).
      rewrite Hgt by lia. split; [exact Hos|]. subst a. reflexivity.
Qed.

(** The rule on the scenario store: 150.00 settles both orders, 100.00
    leaves them pending with 50.00 owed. *)
Lemma payment_settlement_witness :
  (status (fst (post_payments None 2 (pay 1 15000) two_orders)) = 201%nat
   /\ map o_status
          (orders_of 1 (orders (snd (post_payments None 2 (pay 1 15000)
                                                   two_orders))))
      = [paid; paid])
  /\ (status (fst (post_payments None 2 (pay 1 10000) two_orders)) = 201%nat
      /\ map o_status
             (orders_of 1 (orders (snd (post_payments None 2 (pay 1 10000)
                                                      two_orders))))
         = [pending; pending]
      /\ balance_rows 1 (snd (post_payments None 2 (pay 1 10000) two_orders))
         = [5000]).
Proof.
  pose proof (proj2 payment_settlement) as S.
  split.
  - destruct (proj1 (S 2 two_orders 1 _ _ 15000 _ _ two_orders_reachable
                       eq_refl eq_refl eq_refl eq_refl eq_refl
                       (pairing _ _ _)))
      as [Hs Ho]; [lia|].
    split; [exact Hs|]. rewrite Ho. reflexivity.
  - destruct (proj2 (S 2 two_orders 1 _ _ 10000 _ _ two_orders_reachable
                       eq_refl eq_refl eq_refl eq_refl eq_refl
                       (pairing _ _ _)) eq_refl)
      as (Hs & Ho & Hb).
    split; [exact Hs|]. split; [|exact Hb]. rewrite Ho. reflexivity.
Defined.

Lemma post_orders_unknown f now rows d :
  Exists (fun row => unknown_customer row d = true) rows ->
  status (fst (post_orders f now (ArrayOf rows) d)) = 500%nat.
Proof.
  intros Hex. unfold post_orders.
  destruct rows as [|order rest]; [inversion Hex|].
  try_catch E; [|reflexivity]. exfalso.
  unfold connect in E. exec.
  match goal with
  | H : insert_rows _ _ _ _ = _ |- _ =>
      apply insert_rows_unknown in H; [destruct H; discriminate | exact Hex]
  end.
Qed.

(** C3. Batch order creation is atomic.  Whatever makes the request fail
    (any answer other than 201: a row that cannot be inserted, a balance
    update or any other store call that throws, at any position of the
    batch), the three tables are afterwards exactly as before the call: no
    order is inserted and no balance changed, also for the rows processed
    before the failure.  A row whose customer_id is missing or names no
    customer makes the request fail with status 500. *)
Theorem batch_atomicity :
  forall f now b d r d',
    post_orders f now b d = (r, d') ->
    (status r <> 201%nat ->
     customers d' = customers d /\ orders d' = orders d
     /\ payments d' = payments d)
    /\ (forall rows,
           b = ArrayOf rows ->
           Exists (fun row => unknown_customer row d = true) rows ->
           status r = 500%nat).
Proof.
  intros f now b d r d' H. split.
  - intros Hs. apply post_orders_outcome in H.
    destruct H as (Hp & _ & _ & [(_ & Hc & Ho) | (Hok & _)]);
      [auto | contradiction].
  - intros rows -> Hex.
    pose proof (post_orders_unknown f now rows d Hex) as Hs.
    rewrite H in Hs. exact Hs.
Qed.

(** A batch whose second row names customer 99, who does not exist: the
    first row is rolled back with it. *)
Lemma batch_atomicity_witness :
  let b := ArrayOf [order_row 1 2 100; order_row 99 1 100] in
  status (fst (post_orders None 3 b two_orders)) = 500%nat
  /\ customers (snd (post_orders None 3 b two_orders)) = customers two_orders
  /\ orders (snd (post_orders None 3 b two_orders)) = orders two_orders
  /\ payments (snd (post_orders None 3 b two_orders)) = payments two_orders.
Proof.
  intros b.
  destruct (batch_atomicity None 3 b two_orders _ _ (pairing _ _ _))
    as [Hroll Hfail].
  assert (Hs : status (fst (post_orders None 3 b two_orders)) = 500%nat).
  { apply (Hfail _ eq_refl). apply Exists_cons_tl, Exists_cons_hd.
    reflexivity. }
  split; [exact Hs|]. apply Hroll. rewrite Hs. discriminate.
Defined.

(** ** A failure after the commit *)

(** C4. Payment creation is not rolled back on every failure.  On the
    store with one customer owing 150.00 for two pending orders, a payment
    of 150.00 whose read-back of the created row (the store call after the
    commit) throws is answered 500, and yet the payment row is recorded,
    the balance is 0 and both orders are paid: the rollback of the catch
    block comes after the commit and undoes nothing. *)
Theorem payment_error_after_commit :
  let d := two_orders in
  let r := fst (post_payments (Some 6%nat) 2 (pay 1 15000) d) in
  let d' := snd (post_payments (Some 6%nat) 2 (pay 1 15000) d) in
  status r = 500%nat
  /\ payments d = [] /\ payments d' = [mkPayment 1 1 15000 2 None]
  /\ balance_rows 1 d = [15000] /\ balance_rows 1 d' = [0]
  /\ map o_status (orders d) = [pending; pending]
  /\ map o_status (orders d') = [paid; paid].
Proof. vm_compute. repeat split; reflexivity. Qed.

Lemma fresh_payment_row d p :
  Forall (fun q => p_id q < next_payment_id d) (payments d) ->
  p_id p = next_payment_id d ->
  filter (fun q => p_id q =? next_payment_id d) (payments d ++ [p]) = [p].
Proof.
  intros Hall Hp. rewrite filter_app. cbn. rewrite Hp, Z.eqb_refl.
  replace (filter _ (payments d)) with (@nil Payment); [reflexivity|].
  symmetry. induction Hall as [|q qs Hq _ IH]; cbn; [reflexivity|].
  assert (E : (p_id q =? next_payment_id d) = false)
    by (apply Z.eqb_neq; lia).
  rewrite E. exact IH.
Qed.

(** The writes of the route are all or nothing: when no payment row has
    been added, the balances and the orders are as they were too. *)
Lemma payment_all_or_nothing f now b d r d' :
  post_payments f now b d = (r, d') ->
  payments d' = payments d ->
  customers d' = customers d /\ orders d' = orders d /\ status r <> 201%nat.
Proof.
  intros H Hp. apply post_payments_outcome in H.
  destruct H as [(Hs & Hc & Ho & _)
                | (cid & a & _ & _ & _ & _ & _ & _ & Hps & _)]; [auto|].
  exfalso. rewrite Hps in Hp.
  apply (f_equal (@List.length Payment)) in Hp. rewrite length_app in Hp.
  cbn in Hp. lia.
Qed.

(** A throw of one of the first five store calls (begin, insert, balance
    update, balance read, and the settlement or the commit) is rolled
    back: the three tables are as they were. *)
Lemma payment_rolled_back_before_commit k now b d r d' :
  (k <= 4)%nat ->
  post_payments (Some k) now b d = (r, d') ->
  status r <> 201%nat
  /\ customers d' = customers d /\ orders d' = orders d
  /\ payments d' = payments d.
Proof.
  intros Hk. unfold post_payments.
  destruct (falsy_num (pay_customer_id b) || falsy_num (amount b)) eqn:Hv.
  { intros H; inversion H; subst. cbn. conj; auto. discriminate. }
  apply orb_false_elim in Hv. destruct Hv as [Hc Ha].
  apply falsy_num_false in Hc. destruct Hc as (cid & Hc & Hcid).
  apply falsy_num_false in Ha. destruct Ha as (a & Ha & Haz).
  rewrite Hc, Ha.
  unfold bind, query, beginTransaction, commit, ret, connect, throws, tick,
    insert_payment, auto_settle, rollback.
  cbn [fault ticks store saved].
  destruct k as [|[|[|[|[|k]]]]]; [| | | | |lia]; cbn [Nat.eqb];
    cbn [fault ticks store saved restore tables customers orders payments];
    repeat (match goal with
            | |- context [if has_customer ?c ?d then _ else _] =>
                destruct (has_customer c d)
            | |- context [if balance_cleared ?l then _ else _] =>
                destruct (balance_cleared l)
            end;
            cbn [fault ticks store saved restore tables customers orders
                 payments update_balance select_balance settle_orders
                 Nat.eqb]);
    intros H; inversion H; subst; cbn; conj; auto; discriminate.
Qed.

(** On success the answer carries the created row. *)
Lemma payment_returns_created_row f now b d r d' :
  reachable d ->
  post_payments f now b d = (r, d') ->
  status r = 201%nat ->
  exists cid a,
    pay_customer_id b = Some cid /\ amount b = Some a
    /\ r = mkResponse 201
              (JPayment (Some (mkPayment (next_payment_id d) cid a now
                                         (or_null (note b))))).
Proof.
  intros Hr H Hs. pose proof (reachable_consistent d Hr) as Hd.
  apply post_payments_outcome in H.
  destruct H as [(Hn & _) | (cid & a & Hc & Ha & _ & _ & _ & _ & Hps
                             & _ & _ & _ & Hresp)]; [contradiction|].
  exists cid, a. conj; auto.
  destruct Hresp as [-> | Hbad]; [|congruence].
  rewrite Hps, fresh_payment_row; [reflexivity | | reflexivity].
  apply (payments_issued d Hd).
Qed.

(** ** Order rows over a run *)

Lemma balance_cleared_true rows :
  balance_cleared rows = true ->
  exists bal, hd_error rows = Some bal /\ bal <= 0.
Proof.
  unfold balance_cleared. destruct rows as [|bal rows]; cbn; [discriminate|].
  intros H. apply Z.leb_le in H. eauto.
Qed.

(** What one request does to the orders table: it appends rows, or it is a
    payment that settles the payer's pending orders. *)
Lemma handle_orders fr d :
  let d' := snd (handle fr d) in
  (exists extra, orders d' = orders d ++ extra)
  \/ (exists f now b cid bal,
         fr = (f, PostPayments now b)
         /\ pay_customer_id b = Some cid
         /\ orders d' = map (settle (Some cid)) (orders d)
         /\ hd_error (balance_rows cid d') = Some bal /\ bal <= 0).
Proof.
  assert (same : forall d', orders d' = orders d ->
                            exists extra, orders d' = orders d ++ extra).
  { intros d' ->. exists []. rewrite app_nil_r. reflexivity. }
  destruct fr as [f [now b | id b | id | now b | now b]];
    cbn [handle]; match goal with |- context [snd ?x] =>
      destruct x as [r d'] eqn:E end; cbn [snd].
  - apply post_customers_outcome in E. left. apply same, E.
  - apply put_customers_outcome in E. left. apply same, E.
  - apply delete_customers_outcome in E. left. apply same, E.
  - apply post_orders_outcome in E. left.
    destruct E as (_ & _ & _ & [(_ & _ & Ho) | (_ & _ & Ho & _)]); auto.
  - apply post_payments_outcome in E.
    destruct E as [(_ & _ & Ho & _)
                  | (cid & a & Hc & _ & _ & _ & _ & _ & _ & Ho & _)];
      [left; auto|].
    destruct (balance_cleared (balance_rows cid d')) eqn:Hb;
      [|left; auto].
    right. apply balance_cleared_true in Hb. destruct Hb as (bal & Hb & Hle).
    exists f, now, b, cid, bal. auto.
Qed.

Lemma handle_order_row fr d i o :
  nth_error (orders d) i = Some o ->
  let d' := snd (handle fr d) in
  nth_error (orders d') i = Some o
  \/ (o_status o = pending
      /\ nth_error (orders d') i = Some (set_status paid o)
      /\ exists f now b bal,
           fr = (f, PostPayments now b)
           /\ pay_customer_id b = Some (o_customer_id o)
           /\ hd_error (balance_rows (o_customer_id o) d') = Some bal
           /\ bal <= 0).
Proof.
  intros Hi d'.
  destruct (handle_orders fr d)
    as [(extra & Ho) | (f & now & b & cid & bal & Hfr & Hc & Ho & Hb & Hle)];
    fold d' in Ho |- *.
  - left. rewrite Ho, nth_error_app1; [exact Hi|].
    apply nth_error_Some. congruence.
  - fold d' in Hb. rewrite Ho, nth_error_map, Hi. cbn [option_map].
    unfold settle. cbn [id_is].
    destruct (o_customer_id o =? cid) eqn:E; [|left; reflexivity].
    destruct (o_status o) eqn:Es; cbn; [|left; reflexivity].
    apply Z.eqb_eq in E. subst cid. right. eauto 12.
Qed.

Lemma paid_stays rs :
  forall d i o,
    nth_error (orders d) i = Some o -> o_status o = paid ->
    nth_error (orders (run rs d)) i = Some o.
Proof.
  induction rs as [|fr rs IH]; intros d i o Hi Hs; [exact Hi|].
  rewrite run_cons. apply IH; [|exact Hs].
  destruct (handle_order_row fr d i o Hi) as [H | (Hp & _)];
    [exact H | congruence].
Qed.

(** C5. Over any sequence of requests an order row stays in the table and
    keeps everything but its status.  A paid order stays paid: no request
    takes it back to pending.  A pending order that has become paid did so
    at a payment request of its own customer, after which that customer's
    balance was at most 0; no other request changes a status. *)
Theorem status_only_settles :
  forall rs d i o,
    nth_error (orders d) i = Some o ->
    exists o',
      nth_error (orders (run rs d)) i = Some o'
      /\ (o_status o = paid -> o' = o)
      /\ (o' = o
          \/ (o_status o = pending /\ o' = set_status paid o
              /\ exists rs1 f now b rs2 bal,
                   rs = rs1 ++ (f, PostPayments now b) :: rs2
                   /\ pay_customer_id b = Some (o_customer_id o)
                   /\ nth_error (orders (run rs1 d)) i = Some o
                   /\ let d1 := run (rs1 ++ [(f, PostPayments now b)]) d in
                      nth_error (orders d1) i = Some (set_status paid o)
                      /\ hd_error (balance_rows (o_customer_id o) d1)
                         = Some bal
                      /\ bal <= 0)).
Proof.
  induction rs as [|fr rs IH]; intros d i o Hi.
  - exists o. cbn. auto.
  - rewrite run_cons.
    destruct (handle_order_row fr d i o Hi)
      as [H | (Hp & H & f & now & b & bal & Hfr & Hc & Hb & Hle)].
    + destruct (IH _ i o H) as (o' & Hn & Hpaid & Hflip).
      exists o'. conj; auto.
      destruct Hflip
        as [-> | (Hs & -> & rs1 & f & now & b & rs2 & bal & -> & Hc & H1 & H2)];
        [left; reflexivity|].
      right. conj; auto.
      exists (fr :: rs1), f, now, b, rs2, bal. conj; auto.
    + exists (set_status paid o). conj.
      * apply paid_stays; [exact H | reflexivity].
      * congruence.
      * right. conj; auto.
        exists [], f, now, b, rs, bal. subst fr. cbn [app]. conj; auto.
Qed.

(** The first order of the scenario store over a payment of 150.00 and a
    later batch. *)
Lemma status_only_settles_witness :
  let o := mkOrder 1 1 10 1000 10000 pending 1 None in
  let rs := [(None, PostPayments 2 (pay 1 15000));
             (None, PostOrders 3 (ArrayOf [order_row 1 1 700]))] in
  nth_error (orders two_orders) 0 = Some o
  /\ exists o',
       nth_error (orders (run rs two_orders)) 0 = Some o'
       /\ (o_status o = paid -> o' = o)
       /\ (o' = o
           \/ (o_status o = pending /\ o' = set_status paid o
               /\ exists rs1 f now b rs2 bal,
                    rs = rs1 ++ (f, PostPayments now b) :: rs2
                    /\ pay_customer_id b = Some (o_customer_id o)
                    /\ nth_error (orders (run rs1 two_orders)) 0 = Some o
                    /\ let d1 := run (rs1 ++ [(f, PostPayments now b)])
                                     two_orders in
                       nth_error (orders d1) 0 = Some (set_status paid o)
                       /\ hd_error (balance_rows (o_customer_id o) d1)
                          = Some bal
                       /\ bal <= 0)).
Proof.
  intros o rs. split; [reflexivity|].
  apply (status_only_settles rs two_orders 0%nat o). reflexivity.
Defined.

(** ** DELETE /customers/:id *)

Lemma filter_some_length (A : Type) (P : A -> bool) l :
  filter P l <> [] -> (0 <? List.length (filter P l))%nat = true.
Proof. destruct (filter P l); [congruence | reflexivity]. Qed.

Lemma delete_customers_has_orders f id d :
  f <> Some 0%nat -> orders_of id (orders d) <> [] ->
  delete_customers f id d = (mkResponse 400 (JError has_orders), d).
Proof.
  intros Hf Ho. apply filter_some_length in Ho.
  unfold delete_customers, bind, query, connect, throws, tick, ret,
    count_orders.
  cbn [fault ticks store saved id_is].
  destruct f as [[|k]|]; [congruence | |]; cbn [Nat.eqb]; rewrite Ho;
    reflexivity.
Qed.

Lemma delete_customers_has_payments f id d :
  f <> Some 0%nat -> f <> Some 1%nat ->
  orders_of id (orders d) = [] -> payments_of id (payments d) <> [] ->
  delete_customers f id d = (mkResponse 400 (JError has_payments), d).
Proof.
  intros Hf0 Hf1 Ho Hp. apply filter_some_length in Hp.
  assert (Ho' : (0 <? List.length (orders_of id (orders d)))%nat = false)
    by (rewrite Ho; reflexivity).
  unfold orders_of in Ho'.
  unfold delete_customers, bind, query, connect, throws, tick, ret,
    count_orders, count_payments.
  cbn [fault ticks store saved id_is].
  destruct f as [[|[|k]]|]; [congruence | congruence | |];
    cbn [Nat.eqb]; rewrite Ho'; cbn [fault ticks store saved Nat.eqb];
    rewrite Hp; reflexivity.
Qed.

(** C6. Customer deletion.  The order count is checked first: a customer
    with an order is refused with the orders conflict as soon as that query
    has answered, before the payment count and the delete are reached.
    The payment count is checked next: a customer with no order and a
    payment is refused with the payments conflict, before the delete is
    reached.  (The two conflicts are status 400 with their own messages.)
    In a reachable store an id that does not exist is answered 404.  A
    request that changes the customers table was answered 200 for a
    customer with no order and no payment, and removed that customer only;
    such a customer is deleted when no store call fails. *)
Theorem delete_guard :
  forall id d,
    (orders_of id (orders d) <> [] ->
     forall f, f <> Some 0%nat ->
       delete_customers f id d = (mkResponse 400 (JError has_orders), d))
    /\ (orders_of id (orders d) = [] -> payments_of id (payments d) <> [] ->
        forall f, f <> Some 0%nat -> f <> Some 1%nat ->
          delete_customers f id d = (mkResponse 400 (JError has_payments), d))
    /\ (reachable d -> has_customer id d = false ->
        delete_customers None id d
        = (mkResponse 404 (JError customer_not_found), d))
    /\ (forall f r d',
           delete_customers f id d = (r, d') ->
           customers d' <> customers d ->
           r = mkResponse 200 (JMessage customer_deleted)
           /\ orders_of id (orders d) = [] /\ payments_of id (payments d) = []
           /\ customers d'
              = filter (fun c => negb (c_id c =? id)) (customers d))
    /\ (has_customer id d = true ->
        orders_of id (orders d) = [] -> payments_of id (payments d) = [] ->
        exists d',
          delete_customers None id d
          = (mkResponse 200 (JMessage customer_deleted), d')
          /\ has_customer id d' = false
          /\ orders d' = orders d /\ payments d' = payments d).
Proof.
  intros id d. conj.
  - intros Ho f Hf. apply delete_customers_has_orders; assumption.
  - intros Ho Hp f Hf0 Hf1. apply delete_customers_has_payments; assumption.
  - intros Hr Hin. pose proof (reachable_consistent d Hr) as Hd.
    assert (Ho : orders_of id (orders d) = []).
    { destruct (orders_of id (orders d)) as [|o os] eqn:E; [reflexivity|].
      exfalso. assert (Hi : In o (orders_of id (orders d)))
        by (rewrite E; left; reflexivity).
      apply filter_In in Hi. destruct Hi as [Hi He]. apply Z.eqb_eq in He.
      pose proof (orders_owned d Hd) as Hown. rewrite Forall_forall in Hown.
      specialize (Hown o Hi). congruence. }
    assert (Hp : payments_of id (payments d) = []).
    { destruct (payments_of id (payments d)) as [|p ps] eqn:E; [reflexivity|].
      exfalso. assert (Hi : In p (payments_of id (payments d)))
        by (rewrite E; left; reflexivity).
      apply filter_In in Hi. destruct Hi as [Hi He]. apply Z.eqb_eq in He.
      pose proof (payments_owned d Hd) as Hown. rewrite Forall_forall in Hown.
      specialize (Hown p Hi). congruence. }
    rewrite delete_customers_decision, Ho, Hp, Hin. reflexivity.
  - intros f r d' H Hne. apply delete_customers_outcome in H.
    destruct H as (_ & _ & _ & _ & [(Hc & _) | (Hr & _ & Ho & Hp & Hc)]);
      [contradiction | auto].
  - intros Hin Ho Hp. rewrite delete_customers_decision, Ho, Hp, Hin.
    change (0 <? List.length (@nil Order))%nat with false.
    change (0 <? List.length (@nil Payment))%nat with false.
    cbv iota. eexists. conj; [reflexivity | | |];
      cbn; auto.
    unfold has_customer. cbn.
    induction (customers d) as [|c cs IH]; cbn; [reflexivity|].
    destruct (c_id c =? id) eqn:E; cbn; [exact IH|]. rewrite E. exact IH.
Qed.

(** The customer of the scenario store cannot be deleted; customer 9 is
    not found. *)
Lemma delete_guard_witness :
  delete_customers None 1 two_orders
  = (mkResponse 400 (JError has_orders), two_orders)
  /\ delete_customers None 9 two_orders
     = (mkResponse 404 (JError customer_not_found), two_orders).
Proof.
  destruct (delete_guard 1 two_orders) as (Hord & _).
  destruct (delete_guard 9 two_orders) as (_ & _ & Hnf & _).
  split.
  - apply Hord; [vm_compute | ]; discriminate.
  - apply Hnf; [exact two_orders_reachable | reflexivity].
Defined.

(** ** Validation *)

(** C7. Payment creation answers the validation error (status 400) and
    writes nothing (the database is the one it was given, and no store call
    is made, so no fault matters) whenever customer_id or amount is missing
    or falsy; an amount of exactly zero is falsy and is rejected too. *)
Theorem payment_validation :
  forall f now b d,
    pay_customer_id b = None \/ pay_customer_id b = Some 0
    \/ amount b = None \/ amount b = Some 0 ->
    post_payments f now b d
    = (mkResponse 400 (JError payment_fields_required), d).
Proof.
  intros f now b d H. unfold post_payments.
  assert (Hv : falsy_num (pay_customer_id b) || falsy_num (amount b) = true).
  { destruct H as [-> | [-> | [-> | ->]]]; cbn;
      rewrite ?orb_true_r; reflexivity. }
  rewrite Hv. reflexivity.
Qed.

(** A payment of 0.00 is rejected. *)
Lemma payment_validation_witness :
  post_payments None 2 (pay 1 0) two_orders
  = (mkResponse 400 (JError payment_fields_required), two_orders).
Proof.
  apply payment_validation. right; right; right. reflexivity.
Defined.

(** C8. Batch order creation answers the validation error (status 400) and
    creates nothing (no order inserted, no balance changed: the database is
    the one it was given) when the body is not an array and when it is the
    empty array. *)
Theorem orders_validation :
  forall f now d,
    post_orders f now NotAnArray d
    = (mkResponse 400 (JError orders_required), d)
    /\ post_orders f now (ArrayOf []) d
       = (mkResponse 400 (JError orders_required), d).
Proof. intros f now d. split; reflexivity. Qed.

(** ** Payments of a negative amount *)



(** ** PUT /customers/:id *)






(** ** The end-to-end scenario of the spec, run on the model *)

Example end_to_end :
  let d1 := run [(None, PostCustomers 0 ayse)] empty_db in
  let d2 := run [(None, PostOrders 1 (ArrayOf [order_row 1 10 500]))] d1 in
  let d3 := run [(None, PostPayments 2 (pay 1 5000))] d2 in
  balance_rows 1 d1 = [0]
  /\ balance_rows 1 d2 = [5000] /\ map o_status (orders d2) = [pending]
  /\ balance_rows 1 d3 = [0] /\ map o_status (orders d3) = [paid].
Proof. vm_compute. repeat split; reflexivity. Qed.

(* ================================================================= *)
(** * Further properties of the routes *)

(** ** POST /customers *)



Lemma name_accepted n :
  trim n <> EmptyString -> name_missing (Some n) = false.
Proof.
  intros Ht. cbn. destruct n as [|a n]; [contradiction Ht; reflexivity|].
  destruct (trim (String a n)); [contradiction Ht; reflexivity | reflexivity].
Qed.






(** ** PUT /customers/:id *)

(** Without a fault, and once the name is accepted, the route is this
    decision on the number of rows the UPDATE matched. *)
Lemma put_customers_decision id b d n :
  name b = Some n -> trim n <> EmptyString ->
  put_customers None id b d
  = let d' := renamed id (trim n) (or_null (phone b)) d in
    if Nat.eqb (List.length (filter (fun c => c_id c =? id) (customers d))) 0
    then (mkResponse 404 (JError customer_not_found), d')
    else (mkResponse 200
            (JCustomer (hd_error (filter (fun c => c_id c =? id)
                                         (customers d')))), d').
Proof.
  intros Hn Ht. unfold put_customers. rewrite Hn, (name_accepted n Ht).
  unfold bind, query, connect, throws, tick, ret, update_customer,
    select_customer, renamed.
  cbn [fault ticks store saved option_map id_is].
  destruct (_ =? 0)%nat; reflexivity.
Qed.

Lemma put_customers_store id b d n :
  name b = Some n -> trim n <> EmptyString ->
  snd (put_customers None id b d) = renamed id (trim n) (or_null (phone b)) d.
Proof.
  intros Hn Ht. rewrite (put_customers_decision id b d n Hn Ht). cbv zeta.
  destruct (Nat.eqb _ 0); reflexivity.
Qed.





Lemma filter_map_if_id id (g : Customer -> Customer) cs :
  (forall c, c_id (g c) = c_id c) ->
  filter (fun c => c_id c =? id)
         (map (fun c => if c_id c =? id then g c else c) cs)
  = map g (filter (fun c => c_id c =? id) cs).
Proof.
  intros Hg. induction cs as [|c cs IH]; cbn; [reflexivity|].
  destruct (c_id c =? id) eqn:E; cbn.
  - rewrite Hg, E, IH. reflexivity.
  - rewrite E, IH. reflexivity.
Qed.




(** The update is idempotent: sending the same request again gives the
    same answer and leaves the store as the first one left it. *)
Theorem put_customers_idempotent :
  forall id b d,
    put_customers None id b (snd (put_customers None id b d))
    = put_customers None id b d.
Proof.
  intros id b d.
  destruct (name_missing (name b)) eqn:Hv.
  { unfold put_customers. rewrite Hv. reflexivity. }
  destruct (name b) as [n|] eqn:Hn; [|discriminate].
  assert (Ht : trim n <> EmptyString).
  { intros E. cbn in Hv. rewrite E in Hv. cbn in Hv.
    rewrite orb_true_r in Hv. discriminate. }
  assert (Hn' : name b = Some n) by exact Hn.
  rewrite (put_customers_store id b d n Hn' Ht).
  rewrite !(put_customers_decision id b _ n Hn' Ht). cbv zeta.
  set (g := set_name_phone (trim n) (or_null (phone b))).
  assert (Hmm : forall cs,
             map (fun c => if c_id c =? id then g c else c)
                 (map (fun c => if c_id c =? id then g c else c) cs)
             = map (fun c => if c_id c =? id then g c else c) cs).
  { intros cs. rewrite map_map. apply map_ext. intros c.
    destruct (c_id c =? id) eqn:E; [|rewrite E; reflexivity].
    subst g. cbn. rewrite E. reflexivity. }
  assert (Hrr : forall d0, renamed id (trim n) (or_null (phone b))
                             (renamed id (trim n) (or_null (phone b)) d0)
                           = renamed id (trim n) (or_null (phone b)) d0).
  { intros d0. unfold renamed. cbn [customers orders payments
      next_customer_id next_order_id next_payment_id]. fold g.
    rewrite Hmm. reflexivity. }
  assert (Hlen : forall d0,
             List.length (filter (fun c => c_id c =? id)
                            (customers (renamed id (trim n)
                                          (or_null (phone b)) d0)))
             = List.length (filter (fun c => c_id c =? id) (customers d0))).
  { intros d0. unfold renamed. cbn [customers].
    rewrite filter_map_if_id by reflexivity. apply length_map. }
  rewrite Hlen, Hrr. reflexivity.
Qed.

(** ** POST /orders: what a successful batch stores *)

Lemma ids_from_cons n k :
  ids_from n (S k) = n :: ids_from (n + 1) k.
Proof.
  unfold ids_from. cbn [seq map]. f_equal; [lia|].
  rewrite <- seq_shift, map_map. apply map_ext. intros i. lia.
Qed.

Lemma batch_total_cons cid row rows :
  batch_total cid (row :: rows)
  = (if id_is (customer_id row) cid
     then match total_price row with Some t => t | None => 0 end
     else 0)
    + batch_total cid rows.
Proof.
  unfold batch_total. cbn [filter].
  destruct (id_is (customer_id row) cid); cbn [map sumZ fold_right];
    unfold sumZ; lia.
Qed.

Lemma set_balance_same c b : b = c_current_balance c -> set_balance b c = c.
Proof. intros ->. destruct c; reflexivity. Qed.

(** The loop, run to its end: one pending order per row, in input order,
    with consecutive ids, and every balance raised by the rows of its
    customer. *)
Lemma insert_rows_stores now rows :
  forall acc s ids s',
    insert_rows now rows acc s = (Ok ids, s') ->
    exists news,
      orders (store s') = orders (store s) ++ news
      /\ Forall2 (stored_as now) rows news
      /\ map o_id news = ids_from (next_order_id (store s)) (List.length rows)
      /\ ids = acc ++ map o_id news
      /\ Forall (fun row => insertable row (store s) = true) rows
      /\ customers (store s')
         = map (fun c => set_balance
                           (c_current_balance c + batch_total (c_id c) rows) c)
               (customers (store s))
      /\ payments (store s') = payments (store s).
Proof.
  induction rows as [|order rest IH]; intros acc s ids s' H;
    cbn [insert_rows] in H.
  - exec. exists []. rewrite !app_nil_r. conj; auto.
    rewrite <- (map_id (customers (store s))) at 1. apply map_ext.
    intros c. symmetry. apply set_balance_same. cbn. lia.
  - exec. apply IH in H. simp_db.
    destruct H as (news & Ho & Hst & Hids & Hacc & Hins & Hcs & Hps).
    match goal with
    | Hc : customer_id order = Some ?c, Hq : quantity order = Some ?q,
      Hu : unit_price order = Some ?u, Ht : total_price order = Some ?t |- _ =>
        exists (mkOrder (next_order_id (store s)) c q u t pending now
                        (or_null (order_group_id order)) :: news);
        assert (Hown : insertable order (store s) = true)
          by (unfold insertable, row_complete, unknown_customer;
              rewrite Hc, Hq, Hu, Ht;
              match goal with Hh : has_customer _ _ = true |- _ =>
                rewrite Hh end; reflexivity)
    end.
    conj.
    + rewrite Ho, <- app_assoc. reflexivity.
    + constructor; [|exact Hst]. unfold stored_as. cbn. auto 10.
    + cbn [map o_id List.length]. rewrite ids_from_cons, Hids. reflexivity.
    + rewrite Hacc, <- app_assoc. reflexivity.
    + constructor; [exact Hown|].
      eapply Forall_impl; [|exact Hins]. cbn. intros row.
      unfold insertable, unknown_customer.
      destruct (customer_id row) as [c|]; [|auto].
      intros Hrow. rewrite <- Hrow. do 3 f_equal. symmetry.
      apply has_customer_same_ids. cbn. apply map_ids_if. reflexivity.
    + rewrite Hcs, map_map. apply map_ext. intros c.
      rewrite batch_total_cons.
      match goal with
      | Hc : customer_id order = Some _, Ht : total_price order = Some _ |- _ =>
          rewrite Hc, Ht
      end.
      cbn [id_is]. destruct (c_id c =? _) eqn:E; cbn;
        rewrite ?E; unfold set_balance; cbn; f_equal; lia.
    + exact Hps.
Qed.

(** With no failing store call the loop runs to its end on rows that can
    all be inserted. *)
Lemma insert_rows_succeeds now rows :
  forall acc s,
    fault s = None ->
    Forall (fun row => insertable row (store s) = true) rows ->
    exists ids s',
      insert_rows now rows acc s = (Ok ids, s') /\ fault s' = None.
Proof.
  induction rows as [|order rest IH]; intros acc s Hf Hall.
  - cbn. unfold ret. eauto.
  - inversion Hall as [|? ? Hrow Hrest]; subst.
    unfold insertable, row_complete, unknown_customer in Hrow.
    destruct (customer_id order) as [c|] eqn:Hc; [|discriminate].
    destruct (quantity order) as [q|] eqn:Hq; [|discriminate].
    destruct (unit_price order) as [u|] eqn:Hu; [|discriminate].
    destruct (total_price order) as [t|] eqn:Ht; [|discriminate].
    cbn in Hrow. apply negb_true_iff, negb_false_iff in Hrow.
    cbn [insert_rows]. unfold bind at 1. unfold query at 1.
    unfold throws. rewrite Hf, Hc, Hq, Hu, Ht. unfold insert_order.
    rewrite Hrow. unfold bind at 1. unfold query at 1. unfold throws, tick.
    cbn [fault ticks store saved update_balance]. rewrite Hf.
    apply IH; [reflexivity|]. cbn [store].
    eapply Forall_impl; [|exact Hrest]. cbn. intros row.
    unfold insertable, unknown_customer.
    destruct (customer_id row) as [c'|]; [|auto].
    intros Hr'. rewrite <- Hr'. do 3 f_equal.
    apply has_customer_same_ids. cbn. apply map_ids_if. reflexivity.
Qed.




Lemma post_orders_accepts now rows d :
  rows <> [] ->
  Forall (fun row => insertable row d = true) rows ->
  status (fst (post_orders None now (ArrayOf rows) d)) = 201%nat.
Proof.
  intros Hne Hall.
  destruct rows as [|order rest]; [congruence|].
  unfold post_orders, bind at 1, beginTransaction, connect, throws, tick.
  cbn [fault ticks store saved].
  destruct (insert_rows_succeeds now (order :: rest) []
              (mkConn None 1 d (Some (tables d))) eq_refl Hall)
    as (ids & s' & Hrun & Hf).
  unfold bind at 1. rewrite Hrun.
  unfold bind, commit, throws, ret. rewrite Hf. reflexivity.
Qed.

(** When no store call fails, a batch is accepted exactly when it is a
    non-empty array whose rows all carry a customer_id, a quantity, a
    unit_price and a total_price and name existing customers. *)
Theorem post_orders_accepts_iff :
  forall now b d,
    status (fst (post_orders None now b d)) = 201%nat
    <-> exists rows,
          b = ArrayOf rows /\ rows <> []
          /\ Forall (fun row => insertable row d = true) rows.
Proof.
  intros now b d. split.
  - intros Hs. destruct b as [|rows]; [discriminate|].
    exists rows. split; [reflexivity|].
    destruct rows as [|order rest]; [discriminate|].
    split; [discriminate|].
    unfold post_orders in Hs. revert Hs.
    try_catch E; [|discriminate]. intros _.
    unfold connect in E. exec.
    match goal with
    | H : insert_rows _ _ _ _ = _ |- _ =>
        apply insert_rows_stores in H; simp_db;
        destruct H as (news & _ & _ & _ & _ & Hins & _)
    end.
    exact Hins.
  - intros (rows & -> & Hne & Hall). apply post_orders_accepts; assumption.
Qed.

(** ** POST /payments for a customer that does not exist *)

(** A payment for a customer_id that names no customer is never recorded:
    whatever store call fails or not, the answer is not 201 and the three
    tables are as they were; when the fields are acceptable and no call
    throws, the INSERT fails on the foreign key and the answer is 500. *)
Theorem post_payments_unknown_customer :
  forall f now b d cid,
    pay_customer_id b = Some cid ->
    has_customer cid d = false ->
    (status (fst (post_payments f now b d)) <> 201%nat
     /\ customers (snd (post_payments f now b d)) = customers d
     /\ orders (snd (post_payments f now b d)) = orders d
     /\ payments (snd (post_payments f now b d)) = payments d)
    /\ (forall a, cid <> 0 -> amount b = Some a -> a <> 0 ->
        fst (post_payments None now b d) = server_error ER_NO_REFERENCED_ROW).
Proof.
  intros f now b d cid Hc Hin. split.
  - pose proof (pairing _ _ (post_payments f now b d)) as H.
    apply post_payments_outcome in H.
    destruct H as [(Hs & Hcs & Ho & Hp & _)
                  | (cid' & a & Hc' & _ & _ & _ & Hin' & _)]; [auto|].
    congruence.
  - intros a Hcz Ha Haz. unfold post_payments. rewrite Hc, Ha.
    cbn [falsy_num]. apply Z.eqb_neq in Hcz, Haz. rewrite Hcz, Haz.
    cbn [orb].
    unfold bind, query, beginTransaction, connect, throws, tick,
      insert_payment.
    cbn [fault ticks store saved]. rewrite Hin. reflexivity.
Qed.

Lemma post_payments_unknown_customer_witness :
  fst (post_payments None 3 (pay 9 500) two_orders)
  = server_error ER_NO_REFERENCED_ROW
  /\ payments (snd (post_payments None 3 (pay 9 500) two_orders))
     = payments two_orders.
Proof.
  destruct (post_payments_unknown_customer None 3 (pay 9 500) two_orders 9
              eq_refl eq_refl) as ((_ & _ & _ & Hp) & Hr).
  split; [|exact Hp].
  apply (Hr 500); [discriminate | reflexivity | discriminate].
Defined.

(** ** The ledger is append-only *)

Lemma handle_payments fr d :
  exists extra, payments (snd (handle fr d)) = payments d ++ extra.
Proof.
  assert (same : forall d', payments d' = payments d ->
                            exists extra, payments d' = payments d ++ extra).
  { intros d' ->. exists []. rewrite app_nil_r. reflexivity. }
  destruct fr as [f [now b | id b | id | now b | now b]];
    cbn [handle]; match goal with |- context [snd ?x] =>
      destruct x as [r d'] eqn:E end; cbn [snd].
  - apply post_customers_outcome in E. apply same, E.
  - apply put_customers_outcome in E. apply same, E.
  - apply delete_customers_outcome in E. apply same, E.
  - apply post_orders_outcome in E. apply same, E.
  - apply post_payments_outcome in E.
    destruct E as [(_ & _ & _ & Hp & _)
                  | (cid & a & _ & _ & _ & _ & _ & _ & Hp & _)]; eauto.
Qed.

(** No request modifies or removes a payment: over any sequence of
    requests (of any route, failing or not) the payments table only grows
    at its end, the rows it had staying in place unchanged. *)
Theorem payments_append_only :
  forall rs d, exists extra, payments (run rs d) = payments d ++ extra.
Proof.
  induction rs as [|fr rs IH]; intros d.
  - exists []. rewrite app_nil_r. reflexivity.
  - rewrite run_cons. destruct (IH (snd (handle fr d))) as (e2 & H2).
    destruct (handle_payments fr d) as (e1 & H1).
    exists (e1 ++ e2). rewrite H2, H1, app_assoc. reflexivity.
Qed.

(** ** Referential integrity *)

(** Whatever requests the server has served since the empty schema,
    customer ids are positive and pairwise distinct, and every order and
    every payment belongs to a customer that is still in the customers
    table: the routes never leave an orphan row. *)
Theorem no_orphan_rows :
  forall rs,
    let d := run rs empty_db in
    NoDup (map c_id (customers d))
    /\ Forall (fun c => 0 < c_id c) (customers d)
    /\ Forall (fun o => exists c, In c (customers d)
                                  /\ c_id c = o_customer_id o) (orders d)
    /\ Forall (fun p => exists c, In c (customers d)
                                  /\ c_id c = p_customer_id p) (payments d).
Proof.
  intros rs d.
  pose proof (run_consistent rs _ consistent_empty) as Hd. fold d in Hd.
  conj.
  - apply (ids_unique d Hd).
  - eapply Forall_impl; [|apply (ids_issued d Hd)]. cbn. intros; lia.
  - eapply Forall_impl; [|apply (orders_owned d Hd)]. cbn.
    intros o Ho. apply has_customer_In. exact Ho.
  - eapply Forall_impl; [|apply (payments_owned d Hd)]. cbn.
    intros p Hp. apply has_customer_In. exact Hp.
Qed.

(** ** Deleting a customer loses no debt *)

(** In a reachable store, a customer whose deletion is answered 200 had a
    balance of exactly 0: the route cannot remove a customer who owes
    money or is owed money. *)
Theorem deleted_customer_had_zero_balance :
  forall f id d c,
    reachable d ->
    status (fst (delete_customers f id d)) = 200%nat ->
    In c (customers d) -> c_id c = id ->
    c_current_balance c = 0
    /\ ~ In c (customers (snd (delete_customers f id d))).
Proof.
  intros f id d c Hr Hs Hc He.
  pose proof (reachable_consistent d Hr) as Hd.
  pose proof (pairing _ _ (delete_customers f id d)) as H.
  apply delete_customers_outcome in H.
  destruct H as (_ & _ & _ & _ & [(_ & Hn) | (_ & _ & Ho & Hp & Hcs)]);
    [contradiction|].
  split.
  - pose proof (balances d Hd) as Hb. rewrite Forall_forall in Hb.
    specialize (Hb c Hc). unfold balanced, order_total, payment_total in Hb.
    rewrite He, Ho, Hp in Hb. exact Hb.
  - rewrite Hcs. intros Hin. apply filter_In in Hin. destruct Hin as [_ Hin].
    apply Z.eqb_eq in He. rewrite He in Hin. discriminate.
Qed.

Lemma deleted_customer_had_zero_balance_witness :
  let c := mkCustomer 1 "Ayse"%string (Some "555"%string) 0 0 in
  c_current_balance c = 0
  /\ ~ In c (customers (snd (delete_customers None 1 with_phone))).
Proof.
  intros c.
  apply (deleted_customer_had_zero_balance None 1 with_phone c).
  - eexists. reflexivity.
  - reflexivity.
  - left. reflexivity.
  - reflexivity.
Defined.

(** ** GET /customers/:id *)

Lemma insert_desc_perm (A : Type) (key : A -> Z) x l :
  Permutation (x :: l) (insert_desc key x l).
Proof.
  induction l as [|y r IH]; cbn; [apply Permutation_refl|].
  destruct (key y <=? key x); [apply Permutation_refl|].
  eapply perm_trans; [apply perm_swap|]. apply perm_skip, IH.
Qed.

Lemma order_by_desc_perm (A : Type) (key : A -> Z) l :
  Permutation l (order_by_desc key l).
Proof.
  induction l as [|x l IH]; cbn; [constructor|].
  eapply perm_trans; [apply perm_skip, IH | apply insert_desc_perm].
Qed.

Lemma insert_desc_sorted (A : Type) (key : A -> Z) x l :
  StronglySorted (fun a b => key b <= key a) l ->
  StronglySorted (fun a b => key b <= key a) (insert_desc key x l).
Proof.
  induction 1 as [|y r Hr IH Hy]; cbn.
  - constructor; constructor.
  - destruct (key y <=? key x) eqn:E.
    + apply Z.leb_le in E. constructor.
      * constructor; assumption.
      * constructor; [exact E|].
        eapply Forall_impl; [|exact Hy]. cbn. intros; lia.
    + apply Z.leb_gt in E. constructor; [exact IH|].
      eapply Permutation_Forall; [apply insert_desc_perm|].
      constructor; [lia | exact Hy].
Qed.

Lemma order_by_desc_sorted (A : Type) (key : A -> Z) l :
  StronglySorted (fun a b => key b <= key a) (order_by_desc key l).
Proof.
  induction l as [|x l IH]; cbn; [constructor|].
  apply insert_desc_sorted, IH.
Qed.


(** What the route answers, by the store call that throws. *)
Lemma get_customer_cases f id d :
  snd (get_customer f id d) = d
  /\ (detail_status (fst (get_customer f id d)) = 500%nat
      \/ (has_customer id d = false
          /\ fst (get_customer f id d)
             = mkDetailResponse 404 (JDetailError customer_not_found))
      \/ (exists c,
             hd_error (filter (fun c => c_id c =? id) (customers d)) = Some c
             /\ fst (get_customer f id d)
                = mkDetailResponse 200
                    (JDetail c
                       (order_by_desc o_order_date (orders_of id (orders d)))
                       (order_by_desc p_payment_date
                                      (payments_of id (payments d)))))).
Proof.
  unfold get_customer, bind, query, connect, throws, tick, ret,
    select_customer, select_orders_of, select_payments_of, orders_of,
    payments_of.
  cbn [fault ticks store saved id_is].
  destruct (filter (fun c => c_id c =? id) (customers d)) as [|c cs] eqn:Hf.
  - assert (Hin : has_customer id d = false).
    { unfold has_customer. destruct (existsb _ (customers d)) eqn:Ex;
        [|reflexivity].
      apply existsb_exists in Ex. destruct Ex as (x & Hx & Hxe).
      assert (Hxf : In x (filter (fun c => c_id c =? id) (customers d)))
        by (apply filter_In; auto).
      rewrite Hf in Hxf. contradiction. }
    destruct f as [[|k]|]; cbn [Nat.eqb fst snd store]; auto.
  - destruct f as [[|[|[|k]]]|];
      cbn [Nat.eqb fst snd store fault ticks saved detail_status];
      split; try reflexivity; auto; right; right; exists c; auto.
Qed.

Lemma get_customer_no_fault id d :
  detail_status (fst (get_customer None id d)) <> 500%nat.
Proof.
  unfold get_customer, bind, query, connect, throws, tick, ret,
    select_customer, select_orders_of, select_payments_of.
  cbn [fault ticks store saved id_is].
  destruct (filter _ (customers d)); cbn; discriminate.
Qed.

(** The detail route only reads: whatever it answers, the store is as it
    was.  When no store call fails it answers 404 exactly for the ids no
    customer has, and 200 for the others. *)
Theorem get_customer_found_iff :
  forall id d,
    (forall f, snd (get_customer f id d) = d)
    /\ (detail_status (fst (get_customer None id d)) = 404%nat
        <-> has_customer id d = false)
    /\ (detail_status (fst (get_customer None id d)) = 200%nat
        <-> has_customer id d = true).
Proof.
  intros id d. split; [intros f; apply get_customer_cases|].
  pose proof (get_customer_no_fault id d) as Hn.
  destruct (get_customer_cases None id d)
    as (_ & [H5 | [(Hin & Hr) | (c & Hc & Hr)]]); [contradiction | |].
  - rewrite Hr, Hin. cbn. split; split; auto; discriminate.
  - assert (Hin : has_customer id d = true).
    { apply has_customer_In. exists c.
      assert (Hcf : In c (filter (fun c => c_id c =? id) (customers d))).
      { destruct (filter _ (customers d)); [discriminate|].
        injection Hc as ->. left. reflexivity. }
      apply filter_In in Hcf. destruct Hcf as [Hcin He].
      apply Z.eqb_eq in He. auto. }
    rewrite Hr, Hin. cbn. split; split; auto; discriminate.
Qed.

(** An answer 200 of the detail route carries the customer's row, all of
    the customer's orders and all of the customer's payments, each exactly
    once, the orders newest first by order_date and the payments newest
    first by payment_date. *)
Theorem get_customer_lists :
  forall f id d c os ps,
    fst (get_customer f id d) = mkDetailResponse 200 (JDetail c os ps) ->
    In c (customers d) /\ c_id c = id
    /\ Permutation (orders_of id (orders d)) os
    /\ StronglySorted (fun a b => o_order_date b <= o_order_date a) os
    /\ Permutation (payments_of id (payments d)) ps
    /\ StronglySorted (fun a b => p_payment_date b <= p_payment_date a) ps.
Proof.
  intros f id d c os ps H.
  destruct (get_customer_cases f id d)
    as (_ & [H5 | [(Hin & Hr) | (c' & Hc & Hr)]]).
  - rewrite H in H5. discriminate.
  - rewrite H in Hr. discriminate.
  - rewrite H in Hr. injection Hr as -> -> ->.
    assert (Hcf : In c' (filter (fun c => c_id c =? id) (customers d))).
    { destruct (filter _ (customers d)); [discriminate|].
      injection Hc as ->. left. reflexivity. }
    apply filter_In in Hcf. destruct Hcf as [Hcin He]. apply Z.eqb_eq in He.
    conj; auto using order_by_desc_perm, order_by_desc_sorted.
Qed.

Lemma get_customer_lists_witness :
  let c := mkCustomer 1 "Ayse"%string None 15000 0 in
  let o1 := mkOrder 1 1 10 1000 10000 pending 1 None in
  let o2 := mkOrder 2 1 5 1000 5000 pending 1 None in
  In c (customers two_orders) /\ c_id c = 1
  /\ Permutation (orders_of 1 (orders two_orders)) [o1; o2]
  /\ StronglySorted (fun a b => o_order_date b <= o_order_date a) [o1; o2]
  /\ Permutation (payments_of 1 (payments two_orders)) []
  /\ StronglySorted (fun a b => p_payment_date b <= p_payment_date a) [].
Proof.
  intros c o1 o2.
  apply (get_customer_lists None 1 two_orders c [o1; o2] []). reflexivity.
Defined.




(** ** String.prototype.trim *)













(* ================================================================= *)
(** * The client against the server *)

(** ** Deleting from the customer detail screen *)

(** The screen tells the two conflicts from other failures by the text of
    the message (both are status 400).  When no store call fails: a
    customer with an order or a payment gives the "cannot delete" alert
    and the store is untouched; the success alert appears exactly when
    the customer existed with no order and no payment; an id that is not
    there gives the generic failure alert with the not-found message. *)
Theorem delete_alert :
  forall id d,
    (orders_of id (orders d) <> [] \/ payments_of id (payments d) <> [] ->
     handleDelete (fst (delete_customers None id d)) = AlertCannotDelete
     /\ snd (delete_customers None id d) = d)
    /\ (handleDelete (fst (delete_customers None id d)) = AlertDeleted
        <-> orders_of id (orders d) = [] /\ payments_of id (payments d) = []
            /\ has_customer id d = true)
    /\ (orders_of id (orders d) = [] -> payments_of id (payments d) = [] ->
        has_customer id d = false ->
        handleDelete (fst (delete_customers None id d))
        = AlertDeleteFailed customer_not_found).
Proof.
  intros id d. rewrite delete_customers_decision.
  destruct (orders_of id (orders d)) as [|o os] eqn:Ho.
  - destruct (payments_of id (payments d)) as [|p ps] eqn:Hp.
    + change (0 <? List.length (@nil Order))%nat with false.
      change (0 <? List.length (@nil Payment))%nat with false.
      cbv iota.
      destruct (has_customer id d) eqn:Hin; cbn [fst snd].
      * conj.
        -- intros [H | H]; congruence.
        -- split; [auto | reflexivity].
        -- discriminate.
      * conj.
        -- intros [H | H]; congruence.
        -- split; [vm_compute; discriminate | intros (_ & _ & H); discriminate].
        -- intros _ _ _. reflexivity.
    + change (0 <? List.length (@nil Order))%nat with false.
      change (0 <? List.length (p :: ps))%nat with true. cbv iota.
      cbn [fst snd]. conj.
      * intros _. split; reflexivity.
      * split; [vm_compute; discriminate | intros (_ & H & _); discriminate].
      * discriminate.
  - change (0 <? List.length (o :: os))%nat with true. cbv iota.
    cbn [fst snd]. conj.
    + intros _. split; reflexivity.
    + split; [vm_compute; discriminate | intros (H & _); discriminate].
    + discriminate.
Qed.

Lemma delete_alert_witness :
  handleDelete (fst (delete_customers None 1 two_orders)) = AlertCannotDelete
  /\ snd (delete_customers None 1 two_orders) = two_orders.
Proof.
  apply (proj1 (delete_alert 1 two_orders)). left. vm_compute. discriminate.
Defined.

(** ** Editing from the customer detail screen *)


Lemma trim_empty : trim EmptyString = EmptyString.
Proof. reflexivity. Qed.




(** ** Stored names are trimmed *)











(** ** Paying from the customer detail screen *)



(** ** Submitting the day's orders from the orders screen *)

Lemma submit_filter (draftOrders : Z -> option Draft) cs :
  filter (fun c => match draftOrders (c_id c) with
                   | Some dr => 0 <? draft_quantity dr
                   | None => false
                   end) cs
  = filter (fun c => (0 <? qty_of draftOrders c)%Z) cs.
Proof.
  apply filter_ext. intros c. unfold qty_of.
  destruct (draftOrders (c_id c)); reflexivity.
Qed.

Lemma summary_fold DEFAULT_UNIT_PRICE (draftOrders : Z -> option Draft) cs :
  forall acc,
    customerCount (fold_left (summary_step DEFAULT_UNIT_PRICE draftOrders) cs acc)
    = (customerCount acc + List.length (filter (fun c => (0 <? qty_of draftOrders c)%Z) cs))%nat
    /\ totalQuantity (fold_left (summary_step DEFAULT_UNIT_PRICE draftOrders) cs acc)
       = totalQuantity acc
         + sumZ (map (qty_of draftOrders) (filter (fun c => (0 <? qty_of draftOrders c)%Z) cs)).
Proof.
  induction cs as [|c cs IH]; intros acc; cbn [fold_left filter].
  - cbn. split; lia.
  - destruct (IH (summary_step DEFAULT_UNIT_PRICE draftOrders acc c)) as (H1 & H2). rewrite H1, H2.
    unfold summary_step. destruct (0 <? qty_of draftOrders c).
    + cbn [customerCount totalQuantity map List.length].
      unfold sumZ. cbn [map fold_right]. split; lia.
    + split; reflexivity.
Qed.

Lemma submit_rows_quantities (draftOrders : Z -> option Draft) gid cs :
  map (fun row => match quantity row with Some q => q | None => 0 end)
      (submit_rows draftOrders gid cs)
  = map (qty_of draftOrders) (filter (fun c => (0 <? qty_of draftOrders c)%Z) cs).
Proof.
  unfold submit_rows. rewrite submit_filter, map_map. apply map_ext.
  intros c. unfold qty_of. destruct (draftOrders (c_id c)); reflexivity.
Qed.

(** What the screen sends agrees with what its summary announced: one
    row per counted customer, the announced number of loaves in all, each
    row with a positive quantity, the unit price of its draft and their
    product as total_price; and it sends nothing exactly when there would
    be no row, so the server's "empty batch" refusal is never met. *)
Theorem orders_form_consistent :
  forall DEFAULT_UNIT_PRICE (draftOrders : Z -> option Draft) gid cs,
    let rows := submit_rows draftOrders gid cs in
    let s := summary DEFAULT_UNIT_PRICE draftOrders cs in
    List.length rows = customerCount s
    /\ sumZ (map (fun row => match quantity row with
                             | Some q => q
                             | None => 0
                             end) rows)
       = totalQuantity s
    /\ Forall (fun row =>
                 exists cid q u,
                   customer_id row = Some cid /\ quantity row = Some q
                   /\ unit_price row = Some u /\ total_price row = Some (q * u)
                   /\ 0 < q /\ order_group_id row = Some gid
                   /\ draftOrders cid = Some (mkDraft q u)) rows
    /\ (handleSubmit DEFAULT_UNIT_PRICE draftOrders gid cs = None
        <-> rows = [])
    /\ (rows <> [] ->
        handleSubmit DEFAULT_UNIT_PRICE draftOrders gid cs = Some rows).
Proof.
  intros DEFAULT_UNIT_PRICE draftOrders gid cs rows s.
  destruct (summary_fold DEFAULT_UNIT_PRICE draftOrders cs (mkSummary 0 0 0)) as (Hc & Hq).
  cbn [customerCount totalQuantity] in Hc, Hq.
  change (fold_left (summary_step DEFAULT_UNIT_PRICE draftOrders) cs (mkSummary 0 0 0)) with s in Hc, Hq.
  assert (Hlen : List.length rows = customerCount s).
  { subst rows. unfold submit_rows. rewrite length_map, submit_filter.
    rewrite Hc. reflexivity. }
  conj.
  - exact Hlen.
  - subst rows. rewrite submit_rows_quantities, Hq. lia.
  - subst rows. unfold submit_rows. apply Forall_map, Forall_forall.
    intros c Hc'. apply filter_In in Hc'. destruct Hc' as [_ Hp].
    destruct (draftOrders (c_id c)) as [[q u]|] eqn:Hd; [|discriminate].
    cbn in Hp. apply Z.ltb_lt in Hp.
    exists (c_id c), q, u. cbn. auto 10.
  - unfold handleSubmit. fold s. rewrite <- Hlen. fold rows.
    destruct rows; cbn; split; auto; discriminate.
  - unfold handleSubmit. fold s. rewrite <- Hlen. fold rows.
    destruct rows; cbn; [congruence | reflexivity].
Qed.




(** ** The timeline of the customer detail screen *)




